(** * Mean Landsat 8 surface temperature over the MRCOG study area

    A shallow embedding of [arset_suhi_for_mrcog_st_v01_20221006.js], an
    Earth Engine script: the script's functions [cloudMask] and
    [applyScaleFactors] and its chain of collection operations are
    transcribed call by call over a model of the Earth Engine values they
    manipulate (typed bands with per-band validity, images, collections,
    filters).

    - A band is a finite map from pixel positions to values; a pixel that is
      masked in a band has no entry in the map.
    - A call that the platform rejects (selecting a band that does not exist,
      a bitwise operation on a floating-point band) is a [Failed] result.
    - Pixel arithmetic is generic in the number type ([Arith]); it is
      instantiated with exact rationals and with IEEE-754 binary64. *)

From Stdlib Require Import ZArith QArith Qabs Qminmax Floats Lia.
From stdpp Require Import gmap strings list fin_maps.

Local Open Scope Z_scope.

(** ** Numbers *)

(** The arithmetic the platform performs on floating-point pixels and
    properties.  [ofQ] reads a decimal literal of the script. *)
Class Arith (T : Type) := {
  ofQ : Q → T;
  n_add : T → T → T;
  n_sub : T → T → T;
  n_mul : T → T → T;
  n_div : T → T → T;
  n_ltb : T → T → bool;
  n_nonzero : T → bool
}.

Definition ofZ `{Arith T} (z : Z) : T := ofQ (inject_Z z).

(** What the order of an instance has to satisfy for the threshold
    statements: nothing is strictly below itself. *)
Class ArithLaws (T : Type) `{Arith T} := {
  n_ltb_irrefl : ∀ x : T, n_ltb x x = false
}.

(** Exact rational arithmetic. *)
#[export] Instance Q_Arith : Arith Q := {|
  ofQ := λ q, q;
  n_add := Qplus;
  n_sub := Qminus;
  n_mul := Qmult;
  n_div := Qdiv;
  n_ltb := λ a b, negb (Qle_bool b a);
  n_nonzero := λ a, negb (Qeq_bool a (inject_Z 0))
|}.

(** IEEE-754 binary64, the number type of JavaScript and of the platform's
    [double] pixels.  An integer converts to the nearest double (ties to
    even, infinity beyond the range): exactly below 2^53 in magnitude.  The
    correctly rounded quotient numerator/denominator is the double a decimal
    literal denotes. *)
Definition float_ofZ (z : Z) : float :=
  SF2Prim (binary_normalize prec emax z 0 false).

Definition float_ofQ (q : Q) : float :=
  PrimFloat.div (float_ofZ (Qnum q)) (float_ofZ (Zpos (Qden q))).

#[export] Instance float_Arith : Arith float := {|
  ofQ := float_ofQ;
  n_add := PrimFloat.add;
  n_sub := PrimFloat.sub;
  n_mul := PrimFloat.mul;
  n_div := PrimFloat.div;
  n_ltb := PrimFloat.ltb;
  n_nonzero := λ a, negb (PrimFloat.eqb a PrimFloat.zero)
|}.

(** ** JavaScript integer shift *)

(** [a << n]: both operands are taken as 32-bit integers, the shift count
    modulo 32, the result wrapped to a signed 32-bit integer. *)
Definition to_int32 (z : Z) : Z :=
  let m := z mod 2 ^ 32 in if m <? 2 ^ 31 then m else m - 2 ^ 32.

Definition js_shl (a n : Z) : Z := to_int32 (Z.shiftl (to_int32 a) (n mod 32)).

(** ** Results of platform calls *)

Inductive EEError :=
  | BandNotFound (name : string)
  | NotInteger
  | BandCountMismatch.

Inductive Computed (A : Type) :=
  | Value (a : A)
  | Failed (e : EEError).
Arguments Value {A} a.
Arguments Failed {A} e.

#[export] Instance Computed_ret : MRet Computed := λ A a, Value a.
#[export] Instance Computed_bind : MBind Computed := λ A B f m,
  match m with
  | Value a => f a
  | Failed e => Failed e
  end.

(** ** Geometry *)

(** [ee.Geometry.Polygon(coords, proj, geodesic)]: rings of
    longitude/latitude vertices. *)
Record Geometry := Polygon {
  rings : list (list (Q * Q));
  geodesic : bool
}.

(** The platform's geometric predicates: whether two geometries intersect
    (used by [filterBounds]) and whether a geometry covers a pixel (used by
    [clip]). *)
Class Geo := {
  intersects : Geometry → Geometry → bool;
  covers : Geometry → Z * Z → bool
}.

(** ** Images *)

Section EarthEngine.
Context {T : Type} `{!Arith T} `{!Geo}.

(** A pixel position in the shared grid of the collection. *)
Definition pixel : Type := Z * Z.

(** A scalar: an integer or a floating-point number.  The script's integral
    literals ([1 << 3], [149.0], [32], [20]) are integers, the others
    ([0.00341802], [273.15], [1.8]) floating-point. *)
Inductive scalar :=
  | SInt (z : Z)
  | SNum (x : T).

Definition to_T (s : scalar) : T :=
  match s with
  | SInt z => ofZ z
  | SNum x => x
  end.

(** A band has one pixel type.  Masked pixels are absent from the map. *)
Inductive Band :=
  | IntBand (g : gmap pixel Z)
  | NumBand (g : gmap pixel T).

Definition value_at (b : Band) (p : pixel) : option scalar :=
  match b with
  | IntBand g => SInt <$> g !! p
  | NumBand g => SNum <$> g !! p
  end.

(** The band read as floating-point numbers. *)
Definition to_num (b : Band) : gmap pixel T :=
  match b with
  | IntBand g => ofZ <$> g
  | NumBand g => g
  end.

(** The band read as truth values: non-zero is true. *)
Definition truth (b : Band) : gmap pixel bool :=
  match b with
  | IntBand g => (λ v, negb (v =? 0)) <$> g
  | NumBand g => n_nonzero <$> g
  end.

(** Acquisition date of an image, as the calendar fields the filters read. *)
Record Date := {
  year : Z;
  day_of_year : Z
}.

Record Meta := {
  index : string;
  footprint : option Geometry;
  acquired : option Date;
  properties : gmap string scalar
}.

(** An image computed from pixel arithmetic carries no properties. *)
Definition no_meta : Meta :=
  {| index := ""; footprint := None; acquired := None; properties := ∅ |}.

Record Image := {
  bands : list (string * Band);
  meta : Meta
}.

Fixpoint find_band (n : string) (bs : list (string * Band)) : option Band :=
  match bs with
  | [] => None
  | (n', b) :: rest => if String.eqb n n' then Some b else find_band n rest
  end.

Definition band_names (img : Image) : list string := (bands img).*1.

(** ** Image operations *)

(** [image.select(name, ...)]: the named bands in the order asked for; the
    metadata is kept.  A name that matches no band is an error. *)
Definition select (names : list string) (img : Image) : Computed Image :=
  bs ← mapM (λ n, match find_band n (bands img) with
                  | Some b => Value (n, b)
                  | None => Failed (BandNotFound n)
                  end) names;
  Value {| bands := bs; meta := meta img |}.

(** [image.bitwiseAnd(c)] with an integer constant; integer bands only. *)
Definition band_bitwiseAnd (c : scalar) (b : Band) : Computed Band :=
  match b, c with
  | IntBand g, SInt k => Value (IntBand ((λ v, Z.land v k) <$> g))
  | _, _ => Failed NotInteger
  end.

Definition bitwiseAnd (img : Image) (c : scalar) : Computed Image :=
  bs ← mapM (λ nb, b ← band_bitwiseAnd c nb.2; Value (nb.1, b)) (bands img);
  Value {| bands := bs; meta := no_meta |}.

(** How two images' bands are matched by a binary operation: a single band
    on either side is used against every band of the other side, otherwise
    the bands are matched by position and their numbers must agree. *)
Definition pair_bands (l r : list (string * Band))
  : Computed (list (string * (Band * Band))) :=
  match r with
  | [(_, m)] => Value ((λ nb, (nb.1, (nb.2, m))) <$> l)
  | _ =>
    match l with
    | [(_, b)] => Value ((λ nm, (nm.1, (b, nm.2))) <$> r)
    | _ =>
      if (length l =? length r)%nat
      then Value (zip_with (λ nb nm, (nb.1, (nb.2, nm.2))) l r)
      else Failed BandCountMismatch
    end
  end.

(** [a.or(b)]: 1 where either input is non-zero, 0 otherwise; defined where
    both inputs are valid. *)
Definition band_or (a b : Band) : Band :=
  IntBand (map_zip_with (λ x y, Z.b2z (x || y)) (truth a) (truth b)).

Definition or (a b : Image) : Computed Image :=
  ps ← pair_bands (bands a) (bands b);
  Value {| bands := (λ p, (p.1, band_or p.2.1 p.2.2)) <$> ps; meta := no_meta |}.

(** [a.not()]: 0 where the input is non-zero, 1 otherwise. *)
Definition band_not (a : Band) : Band :=
  IntBand ((λ x, Z.b2z (negb x)) <$> truth a).

Definition not (a : Image) : Image :=
  {| bands := (λ nb, (nb.1, band_not nb.2)) <$> bands a; meta := no_meta |}.

(** [image.updateMask(mask)]: a pixel stays valid where it was valid and the
    mask is valid and non-zero; values and metadata are kept.  The mask has
    one band, used for every band of the image, or as many bands as the
    image. *)
Definition keep {A} (g : gmap pixel A) (m : gmap pixel bool) : gmap pixel A :=
  merge (λ v t, match v, t with
                | Some v, Some true => Some v
                | _, _ => None
                end) g m.

Definition band_updateMask (b m : Band) : Band :=
  match b with
  | IntBand g => IntBand (keep g (truth m))
  | NumBand g => NumBand (keep g (truth m))
  end.

Definition updateMask (img mask : Image) : Computed Image :=
  match bands mask with
  | [(_, m)] =>
    Value {| bands := (λ nb, (nb.1, band_updateMask nb.2 m)) <$> bands img;
             meta := meta img |}
  | ms =>
    if (length (bands img) =? length ms)%nat
    then Value {| bands := zip_with (λ nb nm, (nb.1, band_updateMask nb.2 nm.2))
                                    (bands img) ms;
                  meta := meta img |}
    else Failed BandCountMismatch
  end.

(** Arithmetic with a constant: integer with integer stays integer,
    anything else is floating-point. *)
Definition band_arith (fz : Z → Z → Z) (ft : T → T → T) (c : scalar) (b : Band)
  : Band :=
  match b, c with
  | IntBand g, SInt k => IntBand ((λ v, fz v k) <$> g)
  | IntBand g, SNum k => NumBand ((λ v, ft (ofZ v) k) <$> g)
  | NumBand g, _ => NumBand ((λ v, ft v (to_T c)) <$> g)
  end.

Definition arith (fz : Z → Z → Z) (ft : T → T → T) (img : Image) (c : scalar)
  : Image :=
  {| bands := (λ nb, (nb.1, band_arith fz ft c nb.2)) <$> bands img;
     meta := no_meta |}.

Definition multiply : Image → scalar → Image := arith Z.mul n_mul.
Definition add : Image → scalar → Image := arith Z.add n_add.
Definition subtract : Image → scalar → Image := arith Z.sub n_sub.

(** [dst.addBands(src, null, overwrite)]: every band of [src] is added to
    [dst].  With [overwrite] a band of [dst] with the same name is replaced
    where it stands; without it the new band is renamed.  The metadata is
    that of [dst]. *)
Fixpoint put_band (n : string) (b : Band) (bs : list (string * Band))
  : list (string * Band) :=
  match bs with
  | [] => [(n, b)]
  | (n', b') :: rest =>
    if String.eqb n n' then (n, b) :: rest else (n', b') :: put_band n b rest
  end.

Definition add_band (overwrite : bool) (bs : list (string * Band))
  (nb : string * Band) : list (string * Band) :=
  if overwrite then put_band nb.1 nb.2 bs
  else
    match find_band nb.1 bs with
    | None => bs ++ [nb]
    | Some _ => bs ++ [(nb.1 +:+ "_1", nb.2)]
    end.

Definition addBands (dst src : Image) (overwrite : bool) : Image :=
  {| bands := foldl (add_band overwrite) (bands dst) (bands src);
     meta := meta dst |}.

(** [image.clip(geometry)]: data not covered by the geometry is masked; bands
    and metadata are kept. *)
Definition band_clip (g : Geometry) (b : Band) : Band :=
  match b with
  | IntBand m => IntBand (filter (λ kv, covers g kv.1 = true) m)
  | NumBand m => NumBand (filter (λ kv, covers g kv.1 = true) m)
  end.

Definition clip (img : Image) (g : Geometry) : Image :=
  {| bands := (λ nb, (nb.1, band_clip g nb.2)) <$> bands img;
     meta := meta img |}.

(** ** Collections and filters *)

(** An image collection is an ordered sequence of images. *)
Definition ImageCollection : Type := list Image.

Inductive CalendarField := Year | DayOfYear.

(** The filters the script builds: [ee.Filter.dayOfYear(start, end)],
    [ee.Filter.calendarRange(start, end, field)] and
    [ee.Filter.lt(property, value)]. *)
Inductive Filter :=
  | dayOfYear (first last : Z)
  | calendarRange (first last : Z) (field : CalendarField)
  | lt (property : string) (value : scalar).

(** Both ends of a range are inclusive; a range whose end is below its start
    wraps around. *)
Definition in_range (first last v : Z) : bool :=
  if first <=? last then (first <=? v) && (v <=? last)
  else (first <=? v) || (v <=? last).

Definition calendar_field (f : CalendarField) (d : Date) : Z :=
  match f with
  | Year => year d
  | DayOfYear => day_of_year d
  end.

(** An image without the date or the property a filter reads does not
    pass it. *)
Definition passes (f : Filter) (img : Image) : bool :=
  match f with
  | dayOfYear a b =>
    match acquired (meta img) with
    | Some d => in_range a b (day_of_year d)
    | None => false
    end
  | calendarRange a b field =>
    match acquired (meta img) with
    | Some d => in_range a b (calendar_field field d)
    | None => false
    end
  | lt name v =>
    match properties (meta img) !! name with
    | Some x => n_ltb (to_T x) (to_T v)
    | None => false
    end
  end.

Definition filter_by (f : Filter) (c : ImageCollection) : ImageCollection :=
  List.filter (passes f) c.

(** [collection.filterBounds(geometry)]: the images whose footprint
    intersects the geometry. *)
Definition in_bounds (g : Geometry) (img : Image) : bool :=
  match footprint (meta img) with
  | Some fp => intersects fp g
  | None => false
  end.

Definition filterBounds (g : Geometry) (c : ImageCollection) : ImageCollection :=
  List.filter (in_bounds g) c.

(** [collection.map(f)] and [collection.select(...)]: one failing image
    fails the collection. *)
Definition map_images (f : Image → Computed Image) (c : ImageCollection)
  : Computed ImageCollection :=
  mapM f c.

(** ** Temporal mean *)

(** The values a pixel takes across a stack of bands, in collection order;
    a position that is masked everywhere has no entry. *)
Definition gather (gs : list (gmap pixel T)) : gmap pixel (list T) :=
  foldr (λ g acc, union_with (λ a b, Some (a ++ b)) ((λ v, [v]) <$> g) acc)
        ∅ gs.

Definition sum_of (vs : list T) : T := foldl n_add (ofZ 0) vs.

Definition mean_of (vs : list T) : T :=
  n_div (sum_of vs) (ofZ (Z.of_nat (length vs))).

(** The stack of a named band: the band of every image that has it. *)
Definition stack (n : string) (c : ImageCollection) : list (gmap pixel T) :=
  omap (λ img, to_num <$> find_band n (bands img)) c.

(** [collection.mean()]: one output band for every band of the first image;
    an empty collection gives an image without bands. *)
Definition mean (c : ImageCollection) : Image :=
  match c with
  | [] => {| bands := []; meta := no_meta |}
  | first :: _ =>
    {| bands := (λ nb, (nb.1, NumBand (mean_of <$> gather (stack nb.1 c))))
                  <$> bands first;
       meta := no_meta |}
  end.

(** ** The script *)

Definition start_day : Z := 182.
Definition end_day : Z := 243.

Definition start_year : Z := 2013.
Definition end_year : Z := 2022.

Definition aoi : Geometry :=
  Polygon [[((-107.655533)%Q, 36.242138%Q);
            ((-105.265001)%Q, 36.242138%Q);
            ((-105.265001)%Q, 34.233749%Q);
            ((-107.655533)%Q, 34.233749%Q)]] false.

Definition STUDYBOUNDS : Geometry := aoi.

Definition DATE_RANGE : Filter := dayOfYear start_day end_day.
Definition YEAR_RANGE : Filter := calendarRange start_year end_year Year.

Definition cloudMask (image : Image) : Computed Image :=
  qa ← select ["QA_PIXEL"] image;
  cloud ← bitwiseAnd qa (SInt (js_shl 1 3));
  shadow ← bitwiseAnd qa (SInt (js_shl 1 4));
  mask ← or cloud shadow;
  updateMask image (not mask).

Definition L8 (catalog : ImageCollection) : Computed ImageCollection :=
  c ← map_images (select ["ST_B10"; "QA_PIXEL"]) catalog;
  map_images cloudMask
    (filter_by YEAR_RANGE (filter_by DATE_RANGE (filterBounds STUDYBOUNDS c))).

Definition filtered_L8 (catalog : ImageCollection) : Computed ImageCollection :=
  c ← L8 catalog;
  Value (filter_by (lt "CLOUD_COVER" (SInt 20)) c).

Definition applyScaleFactors (image : Image) : Computed Image :=
  st ← select ["ST_B10"] image;
  let thermalBands :=
    add (multiply (subtract (add (multiply st (SNum (ofQ 0.00341802%Q)))
                                 (SInt 149))
                            (SNum (ofQ 273.15%Q)))
                  (SNum (ofQ 1.8%Q)))
        (SInt 32) in
  Value (addBands image thermalBands true).

Definition landsatST (catalog : ImageCollection) : Computed ImageCollection :=
  c ← filtered_L8 catalog;
  map_images applyScaleFactors c.

Definition mean_LandsatST (catalog : ImageCollection) : Computed Image :=
  c ← landsatST catalog;
  Value (mean c).

Definition one_band (catalog : ImageCollection) : Computed Image :=
  m ← mean_LandsatST catalog;
  select ["ST_B10"] m.

Definition clip_mean_ST (catalog : ImageCollection) : Computed Image :=
  b ← one_band catalog;
  Value (clip b STUDYBOUNDS).

Definition values_ST (catalog : ImageCollection) : Computed Image :=
  c ← clip_mean_ST catalog;
  select ["ST_B10"] c.

(** ** Vocabulary of the statements *)

(** The conversion as the documentation writes it: digital count to Kelvin,
    to Celsius, to Fahrenheit. *)
Definition spec_kelvin (raw : T) : T :=
  n_add (n_mul raw (ofQ 0.00341802%Q)) (ofZ 149).

Definition spec_celsius (raw : T) : T :=
  n_sub (spec_kelvin raw) (ofQ 273.15%Q).

Definition spec_fahrenheit (raw : T) : T :=
  n_add (n_mul (spec_celsius raw) (ofQ 1.8%Q)) (ofZ 32).

(** The value of band [n] of an image at pixel [p], read as a number; none
    where the pixel is masked (or the image has no such band).  The valid
    values across a collection, in collection order, are the v1..vk of the k
    images that are not masked there. *)
Definition pixel_value (img : Image) (n : string) (p : pixel) : option T :=
  b ← find_band n (bands img); to_num b !! p.

Definition valid_values (n : string) (p : pixel) (c : ImageCollection)
  : list T :=
  omap (λ img, pixel_value img n p) c.

(** Bit [i] of the quality band is set. *)
Definition qa_bit (q : Z) (i : Z) : bool := Z.testbit q i.

(** The images of the catalog the script can process: they carry the thermal
    band and an integer quality band. *)
Definition has_schema (img : Image) : Prop :=
  (∃ st, find_band "ST_B10" (bands img) = Some st) ∧
  (∃ qa, find_band "QA_PIXEL" (bands img) = Some (IntBand qa)).

(** What becomes of one catalog image on its way into the filtered
    collection: its two bands are selected and the cloud mask is applied. *)
Definition prepared (img : Image) : Computed Image :=
  s ← select ["ST_B10"; "QA_PIXEL"] img;
  cloudMask s.

(** A catalog image is retained in a collection when the image prepared from
    it is an element of the collection. *)
Definition retained (img : Image) (c : ImageCollection) : Prop :=
  ∃ out, prepared img = Value out ∧ In out c.

(** The four conditions of the filter pipeline, as the documentation lists
    them. *)
Definition intersects_bounds (img : Image) : Prop :=
  ∃ fp, footprint (meta img) = Some fp ∧ intersects fp aoi = true.

Definition in_season (img : Image) : Prop :=
  ∃ d, acquired (meta img) = Some d ∧ 182 ≤ day_of_year d ≤ 243.

Definition in_years (img : Image) : Prop :=
  ∃ d, acquired (meta img) = Some d ∧ 2013 ≤ year d ≤ 2022.

Definition cloud_cover_below (limit : Z) (img : Image) : Prop :=
  ∃ cc, properties (meta img) !! "CLOUD_COVER" = Some cc ∧
        n_ltb (to_T cc) (ofZ limit) = true.

(** The mask [cloudMask] computes from an integer quality band: 1 where
    neither [qa & 8] nor [qa & 16] is non-zero. *)
Definition clear_mask (qa : gmap pixel Z) : Band :=
  band_not (band_or (IntBand ((λ v, Z.land v 8) <$> qa))
                    (IntBand ((λ v, Z.land v 16) <$> qa))).

(** The value of a call that is known to succeed. *)
Definition force (c : Computed Image) (fallback : Image) : Image :=
  match c with
  | Value x => x
  | Failed _ => fallback
  end.

(** What the two calls at the head of the pipeline make of an image they
    succeed on. *)
Definition selected (img : Image) : Image :=
  force (select ["ST_B10"; "QA_PIXEL"] img) img.

Definition masked (img : Image) : Image := force (cloudMask img) img.

(** The four filters of the script on one image, in the order the script
    applies them. *)
Definition passes_filters (img : Image) : bool :=
  in_bounds STUDYBOUNDS img && passes DATE_RANGE img && passes YEAR_RANGE img
  && passes (lt "CLOUD_COVER" (SInt 20)) img.

End EarthEngine.

(** ** A small scene for concrete evaluation *)

Module Fixture.

(** Pixels of a grid of 0.01 degree cells, and planar rectangles as
    geometries: a rectangle covers the pixels whose centre it contains. *)
Definition lon_lat (p : Z * Z) : Q * Q :=
  (inject_Z p.1 / inject_Z 100, inject_Z p.2 / inject_Z 100)%Q.

Definition Qminimum (l : list Q) : option Q :=
  match l with
  | [] => None
  | x :: r => Some (foldl Qmin x r)
  end.

Definition Qmaximum (l : list Q) : option Q :=
  match l with
  | [] => None
  | x :: r => Some (foldl Qmax x r)
  end.

Record Box := { west : Q; east : Q; south : Q; north : Q }.

Definition bbox (g : Geometry) : option Box :=
  match rings g with
  | outer :: _ =>
    w ← Qminimum outer.*1; e ← Qmaximum outer.*1;
    s ← Qminimum outer.*2; n ← Qmaximum outer.*2;
    Some {| west := w; east := e; south := s; north := n |}
  | [] => None
  end.

Definition box_has (b : Box) (pt : Q * Q) : bool :=
  Qle_bool (west b) pt.1 && Qle_bool pt.1 (east b) &&
  Qle_bool (south b) pt.2 && Qle_bool pt.2 (north b).

Definition box_meets (a b : Box) : bool :=
  Qle_bool (west a) (east b) && Qle_bool (west b) (east a) &&
  Qle_bool (south a) (north b) && Qle_bool (south b) (north a).

#[export] Instance box_Geo : Geo := {|
  intersects := λ a b,
    match bbox a, bbox b with
    | Some x, Some y => box_meets x y
    | _, _ => false
    end;
  covers := λ g p,
    match bbox g with
    | Some x => box_has x (lon_lat p)
    | None => false
    end
|}.

(** A scene over Albuquerque with three pixels: a clear one, a cloudy one
    (bit 3 of its quality value 22280 is set) and a clear one east of the
    study area. *)
Definition scene_footprint : Geometry :=
  Polygon [[((-107)%Q, 36%Q); ((-104)%Q, 36%Q);
            ((-104)%Q, 35%Q); ((-107)%Q, 35%Q)]] false.

Definition px_clear : Z * Z := (-10650, 3550).
Definition px_cloud : Z * Z := (-10649, 3550).
Definition px_east : Z * Z := (-10450, 3550).

Definition scene_ST : gmap (Z * Z) Z :=
  <[px_clear := 47000]> (<[px_cloud := 20000]> (<[px_east := 45000]> ∅)).

Definition scene_QA : gmap (Z * Z) Z :=
  <[px_clear := 21824]> (<[px_cloud := 22280]> (<[px_east := 21824]> ∅)).

Definition scene {T} (cloud_cover : @scalar T) (y d : Z) : @Image T :=
  {| bands := [("ST_B10", IntBand scene_ST); ("QA_PIXEL", IntBand scene_QA)];
     meta := {| index := "LC08_033036";
                footprint := Some scene_footprint;
                acquired := Some {| year := y; day_of_year := d |};
                properties := <["CLOUD_COVER" := cloud_cover]> ∅ |} |}.

(** One pixel with the digital count 20000. *)
Definition count_20000 {T} : @Image T :=
  {| bands := [("ST_B10", IntBand (<[px_clear := 20000]> ∅))];
     meta := no_meta |}.

(** The converted thermal value of an image at a pixel. *)
Definition converted `{Arith T} (img : @Image T) (p : Z * Z) : option T :=
  match applyScaleFactors img with
  | Value out => b ← find_band "ST_B10" (bands out); to_num b !! p
  | Failed _ => None
  end.

(** Three acquisitions of the scene, and the clipped mean of the catalog
    they form. *)
Definition catalog : list (@Image Q) :=
  [scene (SInt 5) 2020 197; scene (SNum (7 # 2)) 2021 200;
   scene (SInt 20) 2020 213].

Definition clipped : @Image Q := force (clip_mean_ST catalog) count_20000.

Definition clipped_band : @Band Q :=
  default (IntBand ∅) (find_band "ST_B10" (bands clipped)).

(** Two doubles differ by less than [tol]. *)
Definition within (tol x y : float) : bool :=
  PrimFloat.ltb (PrimFloat.abs (PrimFloat.sub x y)) tol.

End Fixture.

(** ** Vocabulary for the whole pipeline *)

Section PipelineVocabulary.
Context {T : Type} `{!Arith T}.

(** What [applyScaleFactors] makes of an image it succeeds on. *)
Definition scaled (img : @Image T) : Image :=
  force (applyScaleFactors img) img.

(** The Fahrenheit value an image contributes at a pixel: the conversion of
    its thermal count there, provided the count is valid and the quality
    value is valid with bits 3 and 4 clear. *)
Definition clear_fahrenheit (img : @Image T) (p : pixel) : option T :=
  st ← find_band "ST_B10" (bands img);
  match find_band "QA_PIXEL" (bands img) with
  | Some (IntBand qa) =>
    raw ← to_num st !! p;
    q ← qa !! p;
    if qa_bit q 3 || qa_bit q 4 then None else Some (spec_fahrenheit raw)
  | _ => None
  end.

End PipelineVocabulary.

(** Two optional rationals denote the same number, or are both absent. *)
Definition same_number (a b : option Q) : Prop :=
  match a, b with
  | Some x, Some y => (x == y)%Q
  | None, None => True
  | _, _ => False
  end.

(** * Properties *)

(** ** Order of the number instances *)

Lemma Q_ltb_irrefl (x : Q) : n_ltb x x = false.
Proof.
  cbn. apply negb_false_iff, Qle_bool_iff, Qle_refl.
Qed.

Lemma float_ltb_irrefl (x : float) : n_ltb x x = false.
Proof.
  cbn. rewrite ltb_spec. unfold SFltb, SFcompare.
  destruct (Prim2SF x) as [ | [] | | [] m e]; try reflexivity;
    rewrite Z.compare_refl, Pos.compare_refl; reflexivity.
Qed.

#[export] Instance Q_ArithLaws : ArithLaws Q := {| n_ltb_irrefl := Q_ltb_irrefl |}.
#[export] Instance float_ArithLaws : ArithLaws float :=
  {| n_ltb_irrefl := float_ltb_irrefl |}.

(** ** Calls over a list of images or bands *)

Section Calls.
Context {A B : Type}.
Implicit Types (f : A → Computed B) (l : list A).

Lemma bind_of_Value (x : A) f : Value x ≫= f = f x.
Proof. reflexivity. Qed.

Lemma bind_Value (m : Computed A) f (y : B) :
  m ≫= f = Value y → ∃ x, m = Value x ∧ f x = Value y.
Proof.
  destruct m as [x|e]; cbn; intros Hy; [|discriminate Hy].
  exists x. split; [reflexivity|exact Hy].
Qed.

Lemma mapM_cons f x l :
  mapM f (x :: l) = (y ← f x; ys ← mapM f l; Value (y :: ys)).
Proof. reflexivity. Qed.

(** A call that succeeds on every element succeeds on the list, with the
    element-wise results. *)
Lemma mapM_all_values f (g : A → B) l :
  (∀ x, In x l → f x = Value (g x)) → mapM f l = Value (g <$> l).
Proof.
  induction l as [|x l IH]; intros Hf; [reflexivity|].
  rewrite mapM_cons, (Hf x) by (left; reflexivity). cbn.
  rewrite IH by (intros y Hy; apply Hf; right; exact Hy). reflexivity.
Qed.

End Calls.

Lemma filter_fmap_swap {A B} (p : B → bool) (g : A → B) (l : list A) :
  List.filter p (g <$> l) = g <$> List.filter (λ x, p (g x)) l.
Proof.
  induction l as [|x l IH]; [reflexivity|].
  cbn. destruct (p (g x)); cbn; rewrite IH; reflexivity.
Qed.

Lemma filter_pointwise {A} (p q : A → bool) (l : list A) :
  (∀ x, In x l → p x = q x) → List.filter p l = List.filter q l.
Proof.
  induction l as [|x l IH]; intros Hpq; [reflexivity|].
  cbn. rewrite (Hpq x) by (left; reflexivity).
  rewrite IH by (intros y Hy; apply Hpq; right; exact Hy). reflexivity.
Qed.

(** ** Bits of the quality band *)

Lemma land_pow2 (q i : Z) :
  0 ≤ i → Z.land q (2 ^ i) = if Z.testbit q i then 2 ^ i else 0.
Proof.
  intros Hi. apply Z.bits_inj'. intros n Hn.
  rewrite Z.land_spec, Z.pow2_bits_eqb by exact Hi.
  destruct (Z.eqb_spec i n) as [->|Hne].
  - destruct (Z.testbit q n); cbn.
    + rewrite Z.pow2_bits_eqb, Z.eqb_refl by exact Hn. reflexivity.
    + symmetry. apply Z.bits_0.
  - rewrite andb_false_r. destruct (Z.testbit q i).
    + rewrite Z.pow2_bits_eqb by exact Hi. symmetry. apply Z.eqb_neq, Hne.
    + symmetry. apply Z.bits_0.
Qed.

Lemma land_pow2_nonzero (q i : Z) :
  0 ≤ i → negb (Z.land q (2 ^ i) =? 0) = Z.testbit q i.
Proof.
  intros Hi. rewrite land_pow2 by exact Hi.
  destruct (Z.testbit q i); [|reflexivity].
  apply negb_true_iff, Z.eqb_neq. apply Z.pow_nonzero; lia.
Qed.

Lemma clear_bits (q : Z) :
  negb (Z.b2z (negb (negb
    (Z.b2z (negb (Z.land q 8 =? 0) || negb (Z.land q 16 =? 0)) =? 0))) =? 0)
  = negb (Z.testbit q 3 || Z.testbit q 4).
Proof.
  change (Z.land q 8) with (Z.land q (2 ^ 3)).
  change (Z.land q 16) with (Z.land q (2 ^ 4)).
  rewrite (land_pow2_nonzero q 3), (land_pow2_nonzero q 4) by lia.
  destruct (Z.testbit q 3 || Z.testbit q 4); reflexivity.
Qed.

Section ImageFacts.
Context {T : Type} `{!Arith T} `{!Geo}.
Implicit Types (img image : @Image T) (b m : @Band T) (p : pixel) (n : string).

(** ** Bands by name *)

Lemma find_band_fmap (F : string → @Band T → @Band T) n (bs : list (string * @Band T)) :
  find_band n ((λ nb, (nb.1, F nb.1 nb.2)) <$> bs) = F n <$> find_band n bs.
Proof.
  induction bs as [|[n' b] bs IH]; [reflexivity|].
  cbn. destruct (String.eqb_spec n n') as [->|Hne]; [reflexivity|exact IH].
Qed.

Lemma find_band_put_eq n b (bs : list (string * @Band T)) :
  find_band n (put_band n b bs) = Some b.
Proof.
  induction bs as [|[n' b'] bs IH]; cbn.
  - rewrite String.eqb_refl. reflexivity.
  - destruct (String.eqb_spec n n') as [->|Hne]; cbn.
    + rewrite String.eqb_refl. reflexivity.
    + destruct (String.eqb_spec n n'); [contradiction|exact IH].
Qed.

Lemma find_band_put_ne n n' b (bs : list (string * @Band T)) :
  n' ≠ n → find_band n' (put_band n b bs) = find_band n' bs.
Proof.
  intros Hne. induction bs as [|[k b'] bs IH]; cbn.
  - destruct (String.eqb_spec n' n); [contradiction|reflexivity].
  - destruct (String.eqb_spec n k) as [->|Hk]; cbn.
    + destruct (String.eqb_spec n' k); [contradiction|reflexivity].
    + destruct (String.eqb_spec n' k); [reflexivity|exact IH].
Qed.

Lemma put_band_names n b (bs : list (string * @Band T)) :
  is_Some (find_band n bs) → (put_band n b bs).*1 = bs.*1.
Proof.
  induction bs as [|[k b'] bs IH]; cbn; intros [x Hx]; [discriminate|].
  destruct (String.eqb_spec n k) as [->|Hk]; cbn; [reflexivity|].
  rewrite IH by (exists x; exact Hx). reflexivity.
Qed.

(** ** Selecting one band *)

Lemma select_one n b img :
  find_band n (bands img) = Some b →
  select [n] img = Value {| bands := [(n, b)]; meta := meta img |}.
Proof. intros Hb. unfold select. cbn. rewrite Hb. reflexivity. Qed.

Lemma select_one_inv n img out :
  select [n] img = Value out →
  ∃ b, find_band n (bands img) = Some b ∧
       out = {| bands := [(n, b)]; meta := meta img |}.
Proof.
  unfold select. cbn. destruct (find_band n (bands img)) as [b|]; cbn.
  - intros [= <-]. exists b. split; reflexivity.
  - discriminate.
Qed.

(** ** Masks *)

Lemma lookup_keep {A} (g : gmap pixel A) (t : gmap pixel bool) p :
  keep g t !! p =
  match g !! p, t !! p with
  | Some v, Some true => Some v
  | _, _ => None
  end.
Proof.
  unfold keep. rewrite lookup_merge.
  destruct (g !! p), (t !! p) as [[]|]; reflexivity.
Qed.

Lemma lookup_clear_mask (qa : gmap pixel Z) p :
  truth (@clear_mask T _ qa) !! p =
  (λ q, negb (qa_bit q 3 || qa_bit q 4)) <$> qa !! p.
Proof.
  unfold clear_mask, band_not, band_or, truth, qa_bit.
  rewrite !lookup_fmap, map_lookup_zip_with, !lookup_fmap.
  destruct (qa !! p) as [q|]; [|reflexivity]. cbn. f_equal.
  exact (clear_bits q).
Qed.

(** [cloudMask] on an image with an integer quality band: every band is
    masked by the same mask, the metadata is kept. *)
Lemma cloudMask_value image (qa : gmap pixel Z) :
  find_band "QA_PIXEL" (bands image) = Some (IntBand qa) →
  cloudMask image =
  Value {| bands := (λ nb, (nb.1, band_updateMask nb.2 (clear_mask qa)))
                      <$> bands image;
           meta := meta image |}.
Proof.
  intros Hqa. unfold cloudMask. rewrite (select_one _ _ _ Hqa). reflexivity.
Qed.

Lemma value_at_updateMask b m p :
  value_at (band_updateMask b m) p =
  match truth m !! p with
  | Some true => value_at b p
  | _ => None
  end.
Proof.
  destruct b as [g|g]; cbn; rewrite lookup_keep;
    destruct (g !! p), (truth m !! p) as [[]|]; reflexivity.
Qed.

End ImageFacts.

(** ** The cloud mask *)

Section CloudMask.
Context {T : Type} `{!Arith T}.
Implicit Types (image : @Image T) (p : pixel).

(** C2. Where the quality band has the value [q] at a pixel, [cloudMask]
    leaves every band masked at that pixel if bit 3 (cloud) or bit 4 (cloud
    shadow) of [q] is set, and leaves every band as it was at that pixel
    (same validity, same value) if neither is set.  Band names and order are
    kept. *)
Theorem cloudMask_masks_cloud_and_shadow image (qa : gmap pixel Z) p (q : Z) :
  find_band "QA_PIXEL" (bands image) = Some (IntBand qa) →
  qa !! p = Some q →
  ∃ out, cloudMask image = Value out ∧
    band_names out = band_names image ∧
    ∀ (i : nat) n b, bands image !! i = Some (n, b) →
      ∃ b', bands out !! i = Some (n, b') ∧
        (qa_bit q 3 || qa_bit q 4 = true → value_at b' p = None) ∧
        (qa_bit q 3 = false → qa_bit q 4 = false →
         value_at b' p = value_at b p).
Proof.
  intros Hqa Hq. eexists. split; [apply (cloudMask_value _ _ Hqa)|].
  split.
  - unfold band_names. cbn. rewrite <- list_fmap_compose.
    apply list_fmap_ext. intros ? [n b] _. reflexivity.
  - intros i n b Hi. cbn. rewrite list_lookup_fmap, Hi. cbn.
    eexists. split; [reflexivity|].
    rewrite value_at_updateMask, lookup_clear_mask, Hq. cbn.
    split.
    + intros ->. reflexivity.
    + intros -> ->. reflexivity.
Qed.

(** Where the quality band itself is masked, the mask has no value and
    [cloudMask] leaves every band masked. *)
Lemma cloudMask_where_quality_is_masked image (qa : gmap pixel Z) p :
  find_band "QA_PIXEL" (bands image) = Some (IntBand qa) →
  qa !! p = None →
  ∃ out, cloudMask image = Value out ∧
    ∀ (i : nat) n b, bands out !! i = Some (n, b) → value_at b p = None.
Proof.
  intros Hqa Hq. eexists. split; [apply (cloudMask_value _ _ Hqa)|].
  intros i n b. cbn. rewrite list_lookup_fmap.
  destruct (bands image !! i) as [[k x]|]; cbn; [|discriminate].
  intros [= _ <-].
  rewrite value_at_updateMask, lookup_clear_mask, Hq. reflexivity.
Qed.

(** Masking twice with the mask of the masked quality band changes
    nothing. *)
Lemma updateMask_again (qa : gmap pixel Z) (b : @Band T) :
  band_updateMask (band_updateMask b (clear_mask qa))
                  (clear_mask (keep qa (truth (@clear_mask T _ qa))))
  = band_updateMask b (clear_mask qa).
Proof.
  assert (Hpt : ∀ {A} (g : gmap pixel A),
    keep (keep g (truth (@clear_mask T _ qa)))
         (truth (@clear_mask T _ (keep qa (truth (@clear_mask T _ qa)))))
    = keep g (truth (@clear_mask T _ qa))).
  { intros A g. apply map_eq. intros p.
    rewrite !lookup_keep, !lookup_clear_mask, lookup_keep, lookup_clear_mask.
    generalize (λ q : Z, negb (qa_bit q 3 || qa_bit q 4)). intros c.
    destruct (g !! p) as [v|], (qa !! p) as [q|]; cbn; try reflexivity.
    destruct (c q) eqn:Hc; cbn; [|reflexivity].
    rewrite Hc. reflexivity. }
  destruct b as [g|g]; cbn; rewrite Hpt; reflexivity.
Qed.

(** C10. On every image with an integer quality band [cloudMask] succeeds,
    and applied to its own result it succeeds with the same image: bands,
    pixel values, validity and metadata. *)
Theorem cloudMask_idempotent image (qa : gmap pixel Z) :
  find_band "QA_PIXEL" (bands image) = Some (IntBand qa) →
  ∃ out, cloudMask image = Value out ∧ cloudMask out = Value out.
Proof.
  intros Hqa. eexists. split; [apply (cloudMask_value _ _ Hqa)|].
  erewrite cloudMask_value; cycle 1.
  { cbn. rewrite (find_band_fmap (λ _ b, band_updateMask b (clear_mask qa))), Hqa.
    reflexivity. }
  cbn. f_equal. f_equal.
  rewrite <- list_fmap_compose. apply list_fmap_ext.
  intros ? [n b] _. cbn. f_equal. apply updateMask_again.
Qed.

End CloudMask.

Lemma cloudMask_masks_witness :
  ∃ out, cloudMask (Fixture.scene (T:=Q) (SInt 5) 2020 197) = Value out ∧
    band_names out = band_names (Fixture.scene (T:=Q) (SInt 5) 2020 197) ∧
    ∀ (i : nat) n b,
      bands (Fixture.scene (T:=Q) (SInt 5) 2020 197) !! i = Some (n, b) →
      ∃ b', bands out !! i = Some (n, b') ∧
        (qa_bit 22280 3 || qa_bit 22280 4 = true →
         value_at b' Fixture.px_cloud = None) ∧
        (qa_bit 22280 3 = false → qa_bit 22280 4 = false →
         value_at b' Fixture.px_cloud = value_at b Fixture.px_cloud).
Proof.
  apply (cloudMask_masks_cloud_and_shadow
           (Fixture.scene (T:=Q) (SInt 5) 2020 197) Fixture.scene_QA
           Fixture.px_cloud 22280); reflexivity.
Defined.

Lemma cloudMask_idempotent_witness :
  ∃ out, cloudMask (Fixture.scene (T:=Q) (SInt 5) 2020 197) = Value out ∧
         cloudMask out = Value out.
Proof.
  apply (cloudMask_idempotent (Fixture.scene (T:=Q) (SInt 5) 2020 197)
                              Fixture.scene_QA).
  reflexivity.
Defined.


(** ** The scale-factor conversion *)

Section ScaleFactors.
Context {T : Type} `{!Arith T}.
Implicit Types (image : @Image T) (p : pixel).

(** The band arithmetic of [applyScaleFactors], pixel by pixel. *)
Lemma thermal_band (b : @Band T) :
  band_arith Z.add n_add (SInt 32)
    (band_arith Z.mul n_mul (SNum (ofQ 1.8%Q))
      (band_arith Z.sub n_sub (SNum (ofQ 273.15%Q))
        (band_arith Z.add n_add (SInt 149)
          (band_arith Z.mul n_mul (SNum (ofQ 0.00341802%Q)) b))))
  = NumBand (spec_fahrenheit <$> to_num b).
Proof.
  destruct b as [g|g]; cbn; f_equal; apply map_eq; intros p;
    rewrite !lookup_fmap; destruct (g !! p); reflexivity.
Qed.

Lemma applyScaleFactors_value image (b : @Band T) :
  find_band "ST_B10" (bands image) = Some b →
  applyScaleFactors image =
  Value {| bands := put_band "ST_B10" (NumBand (spec_fahrenheit <$> to_num b))
                             (bands image);
           meta := meta image |}.
Proof.
  intros Hb. unfold applyScaleFactors. rewrite (select_one _ _ _ Hb). cbn.
  unfold addBands. cbn. rewrite thermal_band. reflexivity.
Qed.

Lemma put_band_lookup_ne n n' (b x : @Band T) (bs : list (string * @Band T))
  (i : nat) :
  n' ≠ n → bs !! i = Some (n', x) → put_band n b bs !! i = Some (n', x).
Proof.
  intros Hne. revert i. induction bs as [|[k b'] bs IH]; intros i Hi.
  - discriminate.
  - cbn. destruct (String.eqb_spec n k) as [->|Hk].
    + destruct i as [|i]; cbn in *; [congruence|exact Hi].
    + destruct i as [|i]; cbn in *; [exact Hi|apply IH, Hi].
Qed.

(** C1. On every image that has the thermal band, [applyScaleFactors]
    succeeds and the thermal band of its result is a floating-point band
    holding, at every pixel, ((raw * 0.00341802 + 149.0) - 273.15) * 1.8 + 32
    of the raw value there (and nothing where the raw band is masked). *)
Theorem applyScaleFactors_converts image (b : @Band T) :
  find_band "ST_B10" (bands image) = Some b →
  ∃ out g, applyScaleFactors image = Value out ∧
    find_band "ST_B10" (bands out) = Some (NumBand g) ∧
    ∀ p, g !! p =
         (λ raw, n_add (n_mul (n_sub (n_add (n_mul raw (ofQ 0.00341802%Q))
                                            (ofZ 149))
                                     (ofQ 273.15%Q))
                              (ofQ 1.8%Q))
                       (ofZ 32)) <$> to_num b !! p.
Proof.
  intros Hb. do 2 eexists. split; [apply (applyScaleFactors_value _ _ Hb)|].
  cbn. split; [apply find_band_put_eq|].
  intros p. rewrite lookup_fmap. reflexivity.
Qed.

(** C8. [applyScaleFactors] keeps the metadata, the band names and their
    order, and every band that is not named ST_B10 (the quality band among
    them); a pixel that is masked in the thermal band before the conversion
    is masked in it afterwards. *)
Theorem applyScaleFactors_frame image (b : @Band T) :
  find_band "ST_B10" (bands image) = Some b →
  ∃ out, applyScaleFactors image = Value out ∧
    meta out = meta image ∧
    band_names out = band_names image ∧
    find_band "QA_PIXEL" (bands out) = find_band "QA_PIXEL" (bands image) ∧
    (∀ (i : nat) n x, n ≠ "ST_B10" → bands image !! i = Some (n, x) →
                      bands out !! i = Some (n, x)) ∧
    (∀ b', find_band "ST_B10" (bands out) = Some b' →
           ∀ p, value_at b p = None → value_at b' p = None).
Proof.
  intros Hb. eexists. split; [apply (applyScaleFactors_value _ _ Hb)|]. cbn.
  split; [reflexivity|]. split; [|split; [|split]].
  - apply put_band_names. exists b. exact Hb.
  - apply find_band_put_ne. discriminate.
  - intros i n x Hn Hi. apply put_band_lookup_ne; assumption.
  - intros b'. rewrite find_band_put_eq. intros [= <-] p Hp. cbn.
    rewrite lookup_fmap.
    destruct b as [g|g]; cbn in *; rewrite ?lookup_fmap;
      destruct (g !! p); [discriminate|reflexivity|discriminate|reflexivity].
Qed.

End ScaleFactors.

Lemma applyScaleFactors_converts_witness :
  ∃ out g, applyScaleFactors (Fixture.scene (T:=Q) (SInt 5) 2020 197) = Value out ∧
    find_band "ST_B10" (bands out) = Some (NumBand g) ∧
    ∀ p, g !! p =
         (λ raw, n_add (n_mul (n_sub (n_add (n_mul raw (ofQ 0.00341802%Q))
                                            (ofZ 149))
                                     (ofQ 273.15%Q))
                              (ofQ 1.8%Q))
                       (ofZ 32)) <$> to_num (IntBand Fixture.scene_ST) !! p.
Proof.
  apply (applyScaleFactors_converts (Fixture.scene (T:=Q) (SInt 5) 2020 197)
                                    (IntBand Fixture.scene_ST)).
  reflexivity.
Defined.

Lemma applyScaleFactors_frame_witness :
  ∃ out, applyScaleFactors (Fixture.scene (T:=Q) (SInt 5) 2020 197) = Value out ∧
    meta out = meta (Fixture.scene (T:=Q) (SInt 5) 2020 197) ∧
    band_names out = band_names (Fixture.scene (T:=Q) (SInt 5) 2020 197) ∧
    find_band "QA_PIXEL" (bands out)
      = find_band "QA_PIXEL" (bands (Fixture.scene (T:=Q) (SInt 5) 2020 197)) ∧
    (∀ (i : nat) n x, n ≠ "ST_B10" →
       bands (Fixture.scene (T:=Q) (SInt 5) 2020 197) !! i = Some (n, x) →
       bands out !! i = Some (n, x)) ∧
    (∀ b', find_band "ST_B10" (bands out) = Some b' →
           ∀ p, value_at (T:=Q) (IntBand Fixture.scene_ST) p = None →
                value_at b' p = None).
Proof.
  apply (applyScaleFactors_frame (Fixture.scene (T:=Q) (SInt 5) 2020 197)
                                 (IntBand Fixture.scene_ST)).
  reflexivity.
Defined.

(** ** The conversion of the digital count 20000 *)

(** C5, as the code computes it. For the digital count 20000 the conversion
    gives 217.3604 Kelvin, -55.7896 degrees Celsius and -68.42128 degrees
    Fahrenheit: exactly in rational arithmetic, and within 1e-9 in binary64.
    [applyScaleFactors] returns that Fahrenheit value for a pixel holding
    20000. *)
Theorem conversion_of_20000 :
  Fixture.converted (T:=Q) Fixture.count_20000 Fixture.px_clear
    = Some (spec_fahrenheit (ofZ 20000)) ∧
  (spec_kelvin (T:=Q) (ofZ 20000) == 217.3604)%Q ∧
  (spec_celsius (T:=Q) (ofZ 20000) == -55.7896)%Q ∧
  (spec_fahrenheit (T:=Q) (ofZ 20000) == -68.42128)%Q ∧
  Fixture.converted (T:=float) Fixture.count_20000 Fixture.px_clear
    = Some (spec_fahrenheit (ofZ 20000)) ∧
  Fixture.within (ofQ 0.000000001%Q)
    (spec_kelvin (ofZ 20000)) (ofQ 217.3604%Q) = true ∧
  Fixture.within (ofQ 0.000000001%Q)
    (spec_celsius (ofZ 20000)) (ofQ (-55.7896)%Q) = true ∧
  Fixture.within (ofQ 0.000000001%Q)
    (spec_fahrenheit (ofZ 20000)) (ofQ (-68.42128)%Q) = true.
Proof.
  repeat apply conj; vm_compute; reflexivity.
Qed.

(** The figures the documentation gives for the count 20000 (249.36 Kelvin,
    -23.79 degrees Celsius, -10.82 degrees Fahrenheit) are each more than one
    degree away from what the conversion yields, in exact and in binary64
    arithmetic. *)
Lemma documented_figures_for_20000_are_off :
  ¬ (Qabs (spec_kelvin (T:=Q) (ofZ 20000) - 249.36) <= 1)%Q ∧
  ¬ (Qabs (spec_celsius (T:=Q) (ofZ 20000) - -23.79) <= 1)%Q ∧
  ¬ (Qabs (spec_fahrenheit (T:=Q) (ofZ 20000) - -10.82) <= 1)%Q ∧
  Fixture.converted (T:=Q) Fixture.count_20000 Fixture.px_clear
    = Some (spec_fahrenheit (ofZ 20000)) ∧
  Fixture.within (ofZ 1) (spec_kelvin (ofZ 20000)) (ofQ 249.36%Q) = false ∧
  Fixture.within (ofZ 1) (spec_celsius (ofZ 20000)) (ofQ (-23.79)%Q) = false ∧
  Fixture.within (ofZ 1) (spec_fahrenheit (ofZ 20000)) (ofQ (-10.82)%Q) = false ∧
  Fixture.converted (T:=float) Fixture.count_20000 Fixture.px_clear
    = Some (spec_fahrenheit (ofZ 20000)).
Proof.
  assert (Hq : ∀ x y : Q, Qle_bool (Qabs (x - y)) 1 = false →
                          ¬ (Qabs (x - y) <= 1)%Q).
  { intros x y Hb Hle. apply Qle_bool_iff in Hle. congruence. }
  repeat apply conj.
  - apply Hq. vm_compute. reflexivity.
  - apply Hq. vm_compute. reflexivity.
  - apply Hq. vm_compute. reflexivity.
  - vm_compute. reflexivity.
  - vm_compute. reflexivity.
  - vm_compute. reflexivity.
  - vm_compute. reflexivity.
  - vm_compute. reflexivity.
Qed.

(** ** Band selection and clipping *)

Section SelectAndClip.
Context {T : Type} `{!Arith T} `{!Geo}.
Implicit Types (img : @Image T) (p : pixel) (catalog : @ImageCollection T).

Lemma select_only_band img n (b : @Band T) :
  bands img = [(n, b)] → select [n] img = Value img.
Proof.
  intros Hb. destruct img as [bs m]. cbn in Hb. subst bs.
  unfold select. cbn. rewrite String.eqb_refl. reflexivity.
Qed.

(** The clipped mean raster is the clip of a single thermal band. *)
Lemma clip_mean_ST_value catalog r :
  clip_mean_ST catalog = Value r →
  ∃ m (b : @Band T), one_band catalog = Value m ∧
    bands m = [("ST_B10", b)] ∧ r = clip m STUDYBOUNDS.
Proof.
  unfold clip_mean_ST. intros Hr.
  apply bind_Value in Hr as (m & Hm & [= <-]).
  exists m. pose proof Hm as Hsel. unfold one_band in Hsel.
  apply bind_Value in Hsel as (mn & _ & Hsel).
  apply select_one_inv in Hsel as (b & _ & ->).
  exists b. repeat apply conj; [exact Hm|reflexivity|reflexivity].
Qed.

Lemma lookup_clip {A} (g : Geometry) (m : gmap pixel A) p :
  filter (λ kv, covers g kv.1 = true) m !! p
  = if covers g p then m !! p else None.
Proof.
  rewrite map_lookup_filter. destruct (m !! p) as [v|]; cbn.
  - case_guard as Hc; cbn in Hc.
    + rewrite Hc. reflexivity.
    + destruct (covers g p); [congruence|reflexivity].
  - destruct (covers g p); reflexivity.
Qed.

Lemma value_at_clip (g : Geometry) (b : @Band T) p :
  value_at (band_clip g b) p = if covers g p then value_at b p else None.
Proof.
  destruct b as [m|m]; cbn; rewrite lookup_clip;
    destruct (covers g p); reflexivity.
Qed.

(** C9. Selecting ST_B10 from an image whose only band is ST_B10 returns that
    very image; the clipped mean raster has ST_B10 as its only band, so the
    second selection in the script returns the clipped mean raster itself. *)
Theorem select_ST_B10_identity :
  (∀ img (b : @Band T),
     bands img = [("ST_B10", b)] → select ["ST_B10"] img = Value img) ∧
  (∀ catalog r,
     clip_mean_ST catalog = Value r →
     (∃ b : @Band T, bands r = [("ST_B10", b)]) ∧ values_ST catalog = Value r).
Proof.
  split.
  - intros img b Hb. apply (select_only_band _ _ _ Hb).
  - intros catalog r Hr. unfold values_ST. rewrite Hr. cbn.
    apply clip_mean_ST_value in Hr as (m & b & _ & Hm & ->).
    assert (Hb : bands (clip m STUDYBOUNDS)
                 = [("ST_B10", band_clip STUDYBOUNDS b)]).
    { cbn. rewrite Hm. reflexivity. }
    split; [eexists; exact Hb|]. apply (select_only_band _ _ _ Hb).
Qed.

(** C7. In every band of the clipped mean raster, a pixel that is valid is
    covered by the area of interest, and a pixel that the area of interest
    does not cover is masked. *)
Theorem clip_mean_ST_within_aoi catalog r (i : nat) n (b : @Band T) p :
  clip_mean_ST catalog = Value r →
  bands r !! i = Some (n, b) →
  (is_Some (value_at b p) → covers aoi p = true) ∧
  (covers aoi p = false → value_at b p = None).
Proof.
  intros Hr Hi. apply clip_mean_ST_value in Hr as (m & b0 & _ & _ & ->).
  cbn in Hi. rewrite list_lookup_fmap in Hi.
  destruct (bands m !! i) as [[k x]|]; cbn in Hi; [|discriminate].
  injection Hi as <- <-. rewrite value_at_clip.
  change STUDYBOUNDS with aoi.
  destruct (covers aoi p); split; try reflexivity; try discriminate.
  intros [v Hv]. discriminate.
Qed.

End SelectAndClip.

(** ** The temporal mean *)

Section Mean.
Context {T : Type} `{!Arith T}.
Implicit Types (p : pixel) (c : @ImageCollection T).

Lemma gather_cons (g : gmap pixel T) (gs : list (gmap pixel T)) :
  gather (g :: gs)
  = union_with (λ a b, Some (a ++ b)) ((λ v, [v]) <$> g) (gather gs).
Proof. reflexivity. Qed.

Lemma lookup_gather (gs : list (gmap pixel T)) p :
  gather gs !! p =
  match omap (λ g, g !! p) gs with
  | [] => None
  | vs => Some vs
  end.
Proof.
  induction gs as [|g gs IH]; [reflexivity|].
  rewrite gather_cons, lookup_union_with, lookup_fmap, IH. cbn.
  destruct (g !! p) as [v|]; cbn; destruct (omap _ gs); reflexivity.
Qed.

Lemma valid_values_stack n p c :
  valid_values n p c = omap (λ g : gmap pixel T, g !! p) (stack n c).
Proof.
  unfold valid_values, stack, pixel_value.
  induction c as [|img c IH]; [reflexivity|].
  cbn. destruct (find_band n (bands img)) as [b|]; cbn; [|exact IH].
  destruct (to_num b !! p); cbn; rewrite IH; reflexivity.
Qed.

Lemma pixel_value_mean (first : @Image T) rest n p :
  is_Some (find_band n (bands first)) →
  pixel_value (mean (first :: rest)) n p =
  match valid_values n p (first :: rest) with
  | [] => None
  | vs => Some (mean_of vs)
  end.
Proof.
  intros [b Hb]. unfold pixel_value.
  assert (Hf : find_band n (bands (mean (first :: rest)))
               = Some (NumBand (mean_of <$> gather (stack n (first :: rest))))).
  { unfold mean. etrans.
    { apply (find_band_fmap
               (λ k _, NumBand (mean_of <$> gather (stack k (first :: rest))))). }
    rewrite Hb. reflexivity. }
  rewrite Hf. cbn [mbind option_bind to_num].
  rewrite lookup_fmap, lookup_gather, <- valid_values_stack.
  destruct (valid_values n p (first :: rest)); reflexivity.
Qed.

End Mean.

(** ** The filter pipeline *)

Lemma filter_twice {A} (p q : A → bool) (l : list A) :
  List.filter q (List.filter p l) = List.filter (λ x, p x && q x) l.
Proof.
  induction l as [|x l IH]; [reflexivity|].
  cbn. destruct (p x); cbn; [destruct (q x)|]; rewrite IH; reflexivity.
Qed.

Section Filtering.
Context {T : Type} `{!Arith T} `{!Geo}.
Implicit Types (img : @Image T) (catalog out : @ImageCollection T).

(** Filters read the metadata only. *)
Lemma passes_meta (f : Filter) img img' :
  meta img' = meta img → passes f img' = passes f img.
Proof. intros Hm. destruct f; cbn; rewrite Hm; reflexivity. Qed.

Lemma in_bounds_meta (g : Geometry) img img' :
  meta img' = meta img → in_bounds g img' = in_bounds g img.
Proof. intros Hm. unfold in_bounds. rewrite Hm. reflexivity. Qed.

Lemma passes_filters_meta img img' :
  meta img' = meta img → passes_filters img' = passes_filters img.
Proof.
  intros Hm. unfold passes_filters.
  rewrite (in_bounds_meta _ _ _ Hm), !(passes_meta _ _ _ Hm). reflexivity.
Qed.

(** The head of the pipeline on an image of the expected schema. *)
Lemma select_schema img :
  has_schema img →
  select ["ST_B10"; "QA_PIXEL"] img = Value (selected img) ∧
  meta (selected img) = meta img ∧
  ∃ qa, find_band "QA_PIXEL" (bands (selected img)) = Some (IntBand qa).
Proof.
  intros [[st Hst] [qa Hqa]]. unfold selected, select. cbn.
  rewrite Hst, Hqa. cbn. repeat apply conj; try reflexivity.
  exists qa. reflexivity.
Qed.

Lemma cloudMask_schema img (qa : gmap pixel Z) :
  find_band "QA_PIXEL" (bands img) = Some (IntBand qa) →
  cloudMask img = Value (masked img) ∧ meta (masked img) = meta img.
Proof.
  intros Hqa. unfold masked. rewrite (cloudMask_value _ _ Hqa). cbn.
  split; reflexivity.
Qed.

Lemma prepared_schema img :
  has_schema img →
  prepared img = Value (masked (selected img)) ∧
  meta (masked (selected img)) = meta img.
Proof.
  intros Hs. destruct (select_schema _ Hs) as (Hsel & Hm & qa & Hqa).
  destruct (cloudMask_schema _ _ Hqa) as [Hcm Hm'].
  unfold prepared. rewrite Hsel, bind_of_Value, Hcm, Hm', Hm.
  split; reflexivity.
Qed.

(** The filtered collection, in closed form: the catalog images that pass
    the four filters, each prepared. *)
Lemma filtered_L8_value catalog :
  Forall has_schema catalog →
  filtered_L8 catalog =
  Value ((λ img, masked (selected img)) <$> List.filter passes_filters catalog).
Proof.
  intros Hall. rewrite Forall_forall in Hall.
  unfold filtered_L8, L8, map_images.
  rewrite (mapM_all_values _ selected); cycle 1.
  { intros x Hx. apply select_schema, Hall, list_elem_of_In, Hx. }
  rewrite bind_of_Value. unfold filter_by, filterBounds.
  rewrite !filter_twice, filter_fmap_swap.
  rewrite (mapM_all_values _ masked); cycle 1.
  { intros y Hy. apply in_map_iff in Hy as (x & <- & Hx).
    apply filter_In in Hx as [Hx _].
    destruct (select_schema x) as (_ & _ & qa & Hqa);
      [apply Hall, list_elem_of_In, Hx|].
    apply (cloudMask_schema _ _ Hqa). }
  rewrite bind_of_Value. f_equal.
  rewrite <- list_fmap_compose, filter_fmap_swap, filter_twice.
  f_equal. apply filter_pointwise. intros x Hx.
  assert (Hs : has_schema x) by apply Hall, list_elem_of_In, Hx.
  destruct (select_schema _ Hs) as (_ & Hm & _).
  destruct (prepared_schema _ Hs) as [_ Hm'].
  unfold passes_filters, compose.
  rewrite (in_bounds_meta _ _ _ Hm), !(passes_meta _ _ _ Hm),
          (passes_meta _ _ _ Hm').
  rewrite !andb_assoc. reflexivity.
Qed.

(** Who is retained: the catalog images that pass the four filters. *)
Lemma retained_iff catalog img :
  Forall has_schema catalog → In img catalog →
  retained img ((λ x, masked (selected x)) <$> List.filter passes_filters catalog)
  ↔ passes_filters img = true.
Proof.
  intros Hall Hin. rewrite Forall_forall in Hall.
  assert (Hs : has_schema img) by apply Hall, list_elem_of_In, Hin.
  destruct (prepared_schema _ Hs) as [Hp Hm].
  unfold retained. rewrite Hp. split.
  - intros (o & [= <-] & Ho). apply in_map_iff in Ho as (x & Hxo & Hx).
    apply filter_In in Hx as [Hx Hpx].
    destruct (prepared_schema x) as [_ Hmx]; [apply Hall, list_elem_of_In, Hx|].
    rewrite <- Hpx. apply passes_filters_meta.
    rewrite <- Hm, <- Hxo. exact Hmx.
  - intros Hpf. eexists. split; [reflexivity|].
    apply in_map_iff. exists img. split; [reflexivity|].
    apply filter_In. split; assumption.
Qed.

Lemma in_range_spec (a b v : Z) :
  a ≤ b → in_range a b v = true ↔ a ≤ v ≤ b.
Proof.
  intros Hab. unfold in_range.
  destruct (Z.leb_spec a b); [|lia].
  rewrite andb_true_iff, !Z.leb_le. reflexivity.
Qed.

(** The four filters of the code against the four conditions of the
    documentation. *)
Lemma passes_filters_spec img :
  passes_filters img = true ↔
  intersects_bounds img ∧ in_season img ∧ in_years img ∧
  cloud_cover_below 20 img.
Proof.
  unfold passes_filters. rewrite !andb_true_iff.
  unfold in_bounds, passes, DATE_RANGE, YEAR_RANGE, calendar_field,
    start_day, end_day, start_year, end_year.
  unfold intersects_bounds, in_season, in_years, cloud_cover_below.
  change STUDYBOUNDS with aoi. change (to_T (SInt 20)) with (ofZ (T:=T) 20).
  destruct (footprint (meta img)) as [fp|];
    destruct (acquired (meta img)) as [d|];
    destruct (properties (meta img) !! "CLOUD_COVER") as [cc|];
    rewrite ?in_range_spec by lia.
  all: split;
    [ intros [[[H1 H2] H3] H4]; try discriminate;
      repeat apply conj; eexists; (split; [reflexivity|assumption])
    | intros ((fp' & Hf & H1) & (d1 & Hd1 & H2) & (d2 & Hd2 & H3)
              & (cc' & Hc & H4)); try discriminate;
      simplify_eq; repeat apply conj; first [assumption|lia] ].
Qed.

(** C4. On a catalog of images with the thermal band and an integer quality
    band the filter pipeline succeeds; a catalog image is retained in the
    filtered collection if and only if its footprint intersects the area of
    interest, its day of year is in [182, 243], its year is in [2013, 2022]
    and its CLOUD_COVER is strictly below 20; and every image of the
    filtered collection is prepared from a catalog image. *)
Theorem filtered_L8_membership catalog :
  Forall has_schema catalog →
  ∃ out, filtered_L8 catalog = Value out ∧
    (∀ img, In img catalog →
       (retained img out ↔
        intersects_bounds img ∧ in_season img ∧ in_years img ∧
        cloud_cover_below 20 img)) ∧
    (∀ o, In o out → ∃ img, In img catalog ∧ prepared img = Value o).
Proof.
  intros Hall. eexists. split; [apply (filtered_L8_value _ Hall)|]. split.
  - intros img Hin. rewrite (retained_iff _ _ Hall Hin).
    apply passes_filters_spec.
  - intros o Ho. apply in_map_iff in Ho as (x & <- & Hx).
    apply filter_In in Hx as [Hx _]. exists x. split; [exact Hx|].
    rewrite Forall_forall in Hall.
    apply prepared_schema, Hall, list_elem_of_In, Hx.
Qed.

(** C6, as the code filters. The filter is [lt]: among the catalog images
    that pass the bounds, season and year filters, exactly those whose
    CLOUD_COVER is strictly below 20 are retained; an image whose CLOUD_COVER
    equals 20 is dropped. *)
Theorem cloud_cover_filter_is_strict `{!ArithLaws T} catalog :
  Forall has_schema catalog →
  ∃ out, filtered_L8 catalog = Value out ∧
    ∀ img cc, In img catalog →
      intersects_bounds img → in_season img → in_years img →
      properties (meta img) !! "CLOUD_COVER" = Some cc →
      (retained img out ↔ n_ltb (to_T cc) (ofZ 20) = true) ∧
      (to_T cc = ofZ 20 → ¬ retained img out).
Proof.
  intros Hall. eexists. split; [apply (filtered_L8_value _ Hall)|].
  intros img cc Hin Hb Hd Hy Hcc.
  assert (Hiff : retained img
            ((λ x, masked (selected x)) <$> List.filter passes_filters catalog)
          ↔ n_ltb (to_T cc) (ofZ 20) = true).
  { rewrite (retained_iff _ _ Hall Hin), passes_filters_spec.
    unfold cloud_cover_below. split.
    - intros (_ & _ & _ & cc' & Hc & Hlt). congruence.
    - intros Hlt. repeat apply conj; try assumption. exists cc. split; assumption. }
  split; [exact Hiff|].
  intros Heq Hret. apply Hiff in Hret.
  rewrite Heq, n_ltb_irrefl in Hret. discriminate.
Qed.

End Filtering.

(** ** The pipeline on the three-image catalog *)

Section OnTheCatalog.
#[local] Existing Instance Fixture.box_Geo.

(** Two of the three images pass the filters. *)
Example filtered_catalog_size :
  (out ← filtered_L8 Fixture.catalog; Value (length out)) = Value 2%nat.
Proof. vm_compute. reflexivity. Qed.

(** The clear pixel (count 47000 in both retained images) has the mean
    97.694492 degrees Fahrenheit; the cloudy pixel and the pixel east of the
    study area are masked. *)
Example clipped_values :
  (λ v, Qeq_bool v 97.694492%Q) <$> to_num Fixture.clipped_band !! Fixture.px_clear
    = Some true ∧
  value_at Fixture.clipped_band Fixture.px_cloud = None ∧
  value_at Fixture.clipped_band Fixture.px_east = None.
Proof. repeat apply conj; vm_compute; reflexivity. Qed.

Lemma select_ST_B10_identity_witness :
  select ["ST_B10"] (Fixture.count_20000 (T:=Q)) = Value Fixture.count_20000 ∧
  (∃ b : @Band Q, bands Fixture.clipped = [("ST_B10", b)]) ∧
  values_ST Fixture.catalog = Value Fixture.clipped.
Proof.
  split.
  - apply (proj1 select_ST_B10_identity Fixture.count_20000
                 (IntBand (<[Fixture.px_clear := 20000]> ∅))).
    reflexivity.
  - apply (proj2 select_ST_B10_identity Fixture.catalog Fixture.clipped).
    vm_compute. reflexivity.
Defined.

Lemma clip_mean_ST_within_aoi_witness :
  (is_Some (value_at Fixture.clipped_band Fixture.px_east) →
   covers aoi Fixture.px_east = true) ∧
  (covers aoi Fixture.px_east = false →
   value_at Fixture.clipped_band Fixture.px_east = None).
Proof.
  apply (clip_mean_ST_within_aoi Fixture.catalog Fixture.clipped 0%nat "ST_B10"
                                 Fixture.clipped_band Fixture.px_east).
  - vm_compute. reflexivity.
  - vm_compute. reflexivity.
Defined.

Lemma catalog_has_schema : Forall has_schema Fixture.catalog.
Proof.
  repeat (apply List.Forall_cons; [split; eexists; reflexivity|]). constructor.
Qed.

Lemma filtered_L8_membership_witness :
  ∃ out, filtered_L8 Fixture.catalog = Value out ∧
    (∀ img, In img Fixture.catalog →
       (retained img out ↔
        intersects_bounds img ∧ in_season img ∧ in_years img ∧
        cloud_cover_below 20 img)) ∧
    (∀ o, In o out → ∃ img, In img Fixture.catalog ∧ prepared img = Value o).
Proof.
  apply (filtered_L8_membership Fixture.catalog).
  repeat (apply List.Forall_cons; [split; eexists; reflexivity|]). constructor.
Defined.

Lemma cloud_cover_filter_is_strict_witness :
  ∃ out, filtered_L8 Fixture.catalog = Value out ∧
    ∀ img cc, In img Fixture.catalog →
      intersects_bounds img → in_season img → in_years img →
      properties (meta img) !! "CLOUD_COVER" = Some cc →
      (retained img out ↔ n_ltb (to_T cc) (ofZ 20) = true) ∧
      (to_T cc = ofZ 20 → ¬ retained img out).
Proof.
  apply (cloud_cover_filter_is_strict Fixture.catalog).
  repeat (apply List.Forall_cons; [split; eexists; reflexivity|]). constructor.
Defined.

(** The third image of the catalog reports a CLOUD_COVER of exactly 20 and
    passes the bounds, season and year filters; it is not in the filtered
    collection, which holds the other two images. *)
Lemma image_at_threshold_is_dropped :
  In (Fixture.scene (SInt 20) 2020 213) Fixture.catalog ∧
  properties (meta (Fixture.scene (T:=Q) (SInt 20) 2020 213)) !! "CLOUD_COVER"
    = Some (SInt 20) ∧
  in_bounds STUDYBOUNDS (Fixture.scene (T:=Q) (SInt 20) 2020 213) = true ∧
  passes DATE_RANGE (Fixture.scene (T:=Q) (SInt 20) 2020 213) = true ∧
  passes YEAR_RANGE (Fixture.scene (T:=Q) (SInt 20) 2020 213) = true ∧
  ∃ out, filtered_L8 Fixture.catalog = Value out ∧ length out = 2%nat ∧
         ¬ retained (Fixture.scene (SInt 20) 2020 213) out.
Proof.
  split; [right; right; left; reflexivity|].
  do 4 (split; [vm_compute; reflexivity|]).
  eexists. split; [apply (filtered_L8_value _ catalog_has_schema)|].
  split; [vm_compute; reflexivity|].
  rewrite retained_iff;
    [|exact catalog_has_schema|right; right; left; reflexivity].
  vm_compute. discriminate.
Qed.

End OnTheCatalog.

(** * Further properties of the script *)

(** ** Outcomes of the calls *)

Section Outcomes.
Context {T : Type} `{!Arith T}.
Implicit Types (image img : @Image T) (p : pixel).

Lemma cloudMask_Value_inv image out :
  cloudMask image = Value out →
  ∃ qa, find_band "QA_PIXEL" (bands image) = Some (IntBand qa).
Proof.
  destruct (find_band "QA_PIXEL" (bands image)) as [[qa|g]|] eqn:Hqa.
  - intros _. exists qa. reflexivity.
  - unfold cloudMask. rewrite (select_one _ _ _ Hqa). intros [=].
  - unfold cloudMask, select. cbn. rewrite Hqa. intros [=].
Qed.

(** X1. [cloudMask] fails with a missing-band error, naming QA_PIXEL, when
    the image has no band of that name; whenever it succeeds the image has a
    QA_PIXEL band, and the result carries the metadata and the band names of
    the input. *)
Theorem cloudMask_needs_quality_band image :
  (find_band "QA_PIXEL" (bands image) = None →
   cloudMask image = Failed (BandNotFound "QA_PIXEL")) ∧
  (∀ out, cloudMask image = Value out →
          is_Some (find_band "QA_PIXEL" (bands image)) ∧
          meta out = meta image ∧ band_names out = band_names image).
Proof.
  split.
  - intros Hqa. unfold cloudMask, select. cbn. rewrite Hqa. reflexivity.
  - intros out Hout. destruct (cloudMask_Value_inv _ _ Hout) as [qa Hqa].
    rewrite (cloudMask_value _ _ Hqa) in Hout. injection Hout as <-.
    split; [rewrite Hqa; eexists; reflexivity|]. cbn.
    split; [reflexivity|]. unfold band_names. cbn.
    rewrite <- list_fmap_compose. apply list_fmap_ext. intros ? [n b] _.
    reflexivity.
Qed.

(** X2. [applyScaleFactors] fails only when the image
    has no ST_B10 band, with the missing-band error for that name; otherwise
    it succeeds, whatever the pixel type of the band. *)
Theorem applyScaleFactors_outcome image :
  match find_band "ST_B10" (bands image) with
  | None => applyScaleFactors image = Failed (BandNotFound "ST_B10")
  | Some b =>
    applyScaleFactors image =
    Value {| bands := put_band "ST_B10" (NumBand (spec_fahrenheit <$> to_num b))
                               (bands image);
             meta := meta image |}
  end.
Proof.
  destruct (find_band "ST_B10" (bands image)) as [b|] eqn:Hb.
  - apply (applyScaleFactors_value _ _ Hb).
  - unfold applyScaleFactors, select. cbn. rewrite Hb. reflexivity.
Qed.

(** X3. Whatever [cloudMask] leaves valid was valid before with the same
    value, and lies where the quality band is valid with the cloud bit and
    the shadow bit clear. *)
Theorem cloudMask_output_is_clear image out (i : nat) n (b' : @Band T) p v :
  cloudMask image = Value out →
  bands out !! i = Some (n, b') →
  value_at b' p = Some v →
  (∃ b, bands image !! i = Some (n, b) ∧ value_at b p = Some v) ∧
  ∃ qa q, find_band "QA_PIXEL" (bands image) = Some (IntBand qa) ∧
          qa !! p = Some q ∧ qa_bit q 3 = false ∧ qa_bit q 4 = false.
Proof.
  intros Hout Hi Hv.
  destruct (cloudMask_Value_inv _ _ Hout) as [qa Hqa].
  rewrite (cloudMask_value _ _ Hqa) in Hout. injection Hout as <-.
  cbn in Hi. rewrite list_lookup_fmap in Hi.
  destruct (bands image !! i) as [[k b]|]; cbn in Hi; [|discriminate].
  injection Hi as <- <-.
  rewrite value_at_updateMask, lookup_clear_mask in Hv.
  destruct (qa !! p) as [q|] eqn:Hq; cbn [fmap option_fmap option_map] in Hv;
    [|discriminate].
  destruct (qa_bit q 3) eqn:H3, (qa_bit q 4) eqn:H4;
    cbn [negb orb] in Hv; try discriminate.
  split; [exists b; split; [reflexivity|exact Hv]|].
  exists qa, q. repeat apply conj; reflexivity || assumption.
Qed.

End Outcomes.

Lemma cloudMask_needs_quality_band_witness :
  cloudMask (Fixture.count_20000 (T:=Q)) = Failed (BandNotFound "QA_PIXEL") ∧
  is_Some (find_band "QA_PIXEL"
             (bands (Fixture.scene (T:=Q) (SInt 5) 2020 197))) ∧
  meta (masked (Fixture.scene (T:=Q) (SInt 5) 2020 197))
    = meta (Fixture.scene (T:=Q) (SInt 5) 2020 197) ∧
  band_names (masked (Fixture.scene (T:=Q) (SInt 5) 2020 197))
    = band_names (Fixture.scene (T:=Q) (SInt 5) 2020 197).
Proof.
  split.
  - apply (proj1 (cloudMask_needs_quality_band Fixture.count_20000)).
    reflexivity.
  - apply (proj2 (cloudMask_needs_quality_band
                    (Fixture.scene (T:=Q) (SInt 5) 2020 197))).
    vm_compute. reflexivity.
Defined.

Lemma cloudMask_output_is_clear_witness :
  (∃ b, bands (Fixture.scene (T:=Q) (SInt 5) 2020 197) !! 0%nat
          = Some ("ST_B10", b) ∧
        value_at b Fixture.px_clear = Some (SInt 47000)) ∧
  ∃ qa q, find_band "QA_PIXEL" (bands (Fixture.scene (T:=Q) (SInt 5) 2020 197))
            = Some (IntBand qa) ∧
          qa !! Fixture.px_clear = Some q ∧
          qa_bit q 3 = false ∧ qa_bit q 4 = false.
Proof.
  apply (cloudMask_output_is_clear
           (Fixture.scene (T:=Q) (SInt 5) 2020 197)
           (masked (Fixture.scene (T:=Q) (SInt 5) 2020 197)) 0%nat "ST_B10"
           (band_updateMask (IntBand Fixture.scene_ST)
                            (clear_mask Fixture.scene_QA))
           Fixture.px_clear (SInt 47000)).
  - vm_compute. reflexivity.
  - vm_compute. reflexivity.
  - vm_compute. reflexivity.
Defined.

(** ** Masking and conversion together *)

Section MaskAndConvert.
Context {T : Type} `{!Arith T}.
Implicit Types (image img : @Image T) (p : pixel).

Lemma find_band_head n (b : @Band T) (bs : list (string * @Band T)) :
  find_band n ((n, b) :: bs) = Some b.
Proof. cbn. rewrite String.eqb_refl. reflexivity. Qed.

Lemma fmap_put_band (f : @Band T → @Band T) n (b : @Band T)
  (bs : list (string * @Band T)) :
  (λ nb, (nb.1, f nb.2)) <$> put_band n b bs
  = put_band n (f b) ((λ nb, (nb.1, f nb.2)) <$> bs).
Proof.
  induction bs as [|[k x] bs IH]; [reflexivity|].
  cbn. destruct (String.eqb n k); cbn; [reflexivity|].
  f_equal. exact IH.
Qed.

Lemma keep_fmap {A B} (f : A → B) (g : gmap pixel A) (m : gmap pixel bool) :
  keep (f <$> g) m = f <$> keep g m.
Proof.
  apply map_eq. intros p. rewrite lookup_fmap, !lookup_keep, lookup_fmap.
  destruct (g !! p), (m !! p) as [[]|]; reflexivity.
Qed.

Lemma to_num_updateMask (b m : @Band T) :
  to_num (band_updateMask b m) = keep (to_num b) (truth m).
Proof. destruct b as [g|g]; cbn; [rewrite keep_fmap|]; reflexivity. Qed.

(** X4. On an image of the expected schema, masking clouds and then
    converting gives the same image as converting and then masking clouds,
    and both orders succeed. *)
Theorem cloudMask_applyScaleFactors_commute image :
  has_schema image →
  cloudMask image ≫= applyScaleFactors = applyScaleFactors image ≫= cloudMask ∧
  ∃ out, cloudMask image ≫= applyScaleFactors = Value out.
Proof.
  intros [[st Hst] [qa Hqa]].
  assert (Hleft : cloudMask image ≫= applyScaleFactors =
    Value {| bands :=
               put_band "ST_B10"
                 (NumBand (spec_fahrenheit <$>
                             to_num (band_updateMask st (clear_mask qa))))
                 ((λ nb, (nb.1, band_updateMask nb.2 (clear_mask qa)))
                    <$> bands image);
             meta := meta image |}).
  { rewrite (cloudMask_value _ _ Hqa), bind_of_Value.
    erewrite applyScaleFactors_value; [reflexivity|]. cbn.
    rewrite (find_band_fmap (λ _ b, band_updateMask b (clear_mask qa))), Hst.
    reflexivity. }
  split; [|eexists; exact Hleft].
  rewrite Hleft, (applyScaleFactors_value _ _ Hst), bind_of_Value.
  rewrite (cloudMask_value _ qa); cycle 1.
  { cbn. rewrite find_band_put_ne by discriminate. exact Hqa. }
  cbn. f_equal. f_equal.
  rewrite (fmap_put_band (λ b, band_updateMask b (clear_mask qa))).
  f_equal. cbn. rewrite to_num_updateMask, keep_fmap. reflexivity.
Qed.

(** The image the pipeline makes of a catalog image, band by band. *)
Lemma masked_selected_value img (st : @Band T) (qa : gmap pixel Z) :
  find_band "ST_B10" (bands img) = Some st →
  find_band "QA_PIXEL" (bands img) = Some (IntBand qa) →
  masked (selected img) =
  {| bands := [("ST_B10", band_updateMask st (clear_mask qa));
               ("QA_PIXEL", IntBand (keep qa (truth (@clear_mask T _ qa))))];
     meta := meta img |}.
Proof.
  intros Hst Hqa.
  assert (Hsel : selected img =
            {| bands := [("ST_B10", st); ("QA_PIXEL", IntBand qa)];
               meta := meta img |}).
  { unfold selected, select. cbn. rewrite Hst, Hqa. reflexivity. }
  rewrite Hsel. unfold masked. rewrite (cloudMask_value _ qa) by reflexivity.
  reflexivity.
Qed.

Lemma scaled_masked_selected_value img (st : @Band T) (qa : gmap pixel Z) :
  find_band "ST_B10" (bands img) = Some st →
  find_band "QA_PIXEL" (bands img) = Some (IntBand qa) →
  applyScaleFactors (masked (selected img))
    = Value (scaled (masked (selected img))) ∧
  scaled (masked (selected img)) =
  {| bands := [("ST_B10",
                NumBand (spec_fahrenheit <$>
                           keep (to_num st) (truth (@clear_mask T _ qa))));
               ("QA_PIXEL", IntBand (keep qa (truth (@clear_mask T _ qa))))];
     meta := meta img |}.
Proof.
  intros Hst Hqa. unfold scaled.
  rewrite (masked_selected_value _ _ _ Hst Hqa).
  rewrite (applyScaleFactors_value _ (band_updateMask st (clear_mask qa)))
    by reflexivity.
  cbn [force]. split; [reflexivity|].
  cbn. rewrite to_num_updateMask. reflexivity.
Qed.

Lemma pixel_value_scaled img p :
  has_schema img →
  pixel_value (scaled (masked (selected img))) "ST_B10" p
  = clear_fahrenheit img p.
Proof.
  intros [[st Hst] [qa Hqa]].
  destruct (scaled_masked_selected_value _ _ _ Hst Hqa) as [_ ->].
  unfold pixel_value, clear_fahrenheit. rewrite Hst, Hqa.
  cbn [bands]. rewrite find_band_head. cbn [mbind option_bind to_num].
  rewrite lookup_fmap, lookup_keep, lookup_clear_mask.
  destruct (to_num st !! p) as [raw|]; [|reflexivity].
  destruct (qa !! p) as [q|]; [|reflexivity].
  cbn [fmap option_fmap option_map mbind option_bind].
  destruct (qa_bit q 3 || qa_bit q 4); reflexivity.
Qed.

End MaskAndConvert.

Lemma cloudMask_applyScaleFactors_commute_witness :
  cloudMask (Fixture.scene (T:=Q) (SInt 5) 2020 197) ≫= applyScaleFactors
  = applyScaleFactors (Fixture.scene (T:=Q) (SInt 5) 2020 197) ≫= cloudMask ∧
  ∃ out, cloudMask (Fixture.scene (T:=Q) (SInt 5) 2020 197)
           ≫= applyScaleFactors = Value out.
Proof.
  apply (cloudMask_applyScaleFactors_commute
           (Fixture.scene (T:=Q) (SInt 5) 2020 197)).
  split; eexists; reflexivity.
Defined.

(** ** The pipeline from the catalog to the clipped mean *)

Lemma omap_pointwise {A B} (f g : A → option B) (l : list A) :
  (∀ x, In x l → f x = g x) → omap f l = omap g l.
Proof.
  induction l as [|x l IH]; intros Hfg; [reflexivity|].
  cbn. rewrite (Hfg x) by (left; reflexivity).
  rewrite IH by (intros y Hy; apply Hfg; right; exact Hy). reflexivity.
Qed.

Lemma omap_fmap_list {A B C} (f : B → option C) (g : A → B) (l : list A) :
  omap f (g <$> l) = omap (λ x, f (g x)) l.
Proof.
  induction l as [|x l IH]; [reflexivity|].
  cbn. rewrite IH. reflexivity.
Qed.

Lemma bind_ext_filter {A B} (m : Computed A) (f g : A → Computed B) :
  (∀ x, f x = g x) → m ≫= f = m ≫= g.
Proof. intros Hfg. destruct m as [x|e]; cbn; [apply Hfg|reflexivity]. Qed.

Section Pipeline.
Context {T : Type} `{!Arith T} `{!Geo}.
Implicit Types (img : @Image T) (catalog : @ImageCollection T) (p : pixel).

Lemma landsatST_value catalog :
  Forall has_schema catalog →
  landsatST catalog =
  Value ((λ img, scaled (masked (selected img)))
           <$> List.filter passes_filters catalog).
Proof.
  intros Hall. unfold landsatST, map_images.
  rewrite (filtered_L8_value _ Hall), bind_of_Value.
  rewrite (mapM_all_values _ scaled).
  - rewrite <- list_fmap_compose. reflexivity.
  - intros y Hy. apply in_map_iff in Hy as (x & <- & Hx).
    apply filter_In in Hx as [Hx _]. rewrite Forall_forall in Hall.
    destruct (Hall x) as [[st Hst] [qa Hqa]]; [apply list_elem_of_In, Hx|].
    apply (scaled_masked_selected_value _ _ _ Hst Hqa).
Qed.

(** X5. On a catalog of the expected schema the converted collection
    is computed; it holds, in catalog order and with their metadata untouched,
    the images that pass the four filters, each with exactly the two bands
    ST_B10 (floating-point) and QA_PIXEL (integer). *)
Theorem landsatST_shape catalog :
  Forall has_schema catalog →
  ∃ out, landsatST catalog = Value out ∧
    meta <$> out = meta <$> List.filter passes_filters catalog ∧
    Forall (λ img, ∃ g qa, bands img = [("ST_B10", NumBand g);
                                        ("QA_PIXEL", IntBand qa)]) out.
Proof.
  intros Hall. eexists. split; [apply (landsatST_value _ Hall)|].
  rewrite Forall_forall in Hall. split.
  - rewrite <- list_fmap_compose. apply list_fmap_ext. intros i x Hix. cbn.
    assert (Hx : In x catalog).
    { apply list_elem_of_lookup_2, list_elem_of_In, filter_In in Hix.
      apply Hix. }
    destruct (Hall x) as [[st Hst] [qa Hqa]]; [apply list_elem_of_In, Hx|].
    destruct (scaled_masked_selected_value _ _ _ Hst Hqa) as [_ ->].
    reflexivity.
  - apply Forall_forall. intros y Hy.
    apply list_elem_of_In, in_map_iff in Hy as (x & <- & Hx).
    apply filter_In in Hx as [Hx _].
    destruct (Hall x) as [[st Hst] [qa Hqa]]; [apply list_elem_of_In, Hx|].
    destruct (scaled_masked_selected_value _ _ _ Hst Hqa) as [_ ->].
    eexists _, _. reflexivity.
Qed.

Lemma find_band_mean (first : @Image T) rest n :
  is_Some (find_band n (bands first)) →
  find_band n (bands (mean (first :: rest)))
  = Some (NumBand (mean_of <$> gather (stack n (first :: rest)))).
Proof.
  intros [b Hb]. unfold mean. etrans.
  { apply (find_band_fmap
             (λ k _, NumBand (mean_of <$> gather (stack k (first :: rest))))). }
  rewrite Hb. reflexivity.
Qed.

(** The thermal values the converted collection holds at a pixel are the
    cloud-free Fahrenheit values of the passing catalog images. *)
Lemma valid_values_landsatST catalog p :
  Forall has_schema catalog →
  valid_values "ST_B10" p
    ((λ img, scaled (masked (selected img)))
       <$> List.filter passes_filters catalog)
  = omap (λ img, clear_fahrenheit img p) (List.filter passes_filters catalog).
Proof.
  intros Hall. unfold valid_values. rewrite omap_fmap_list.
  apply omap_pointwise. intros x Hx. apply filter_In in Hx as [Hx _].
  rewrite Forall_forall in Hall.
  apply pixel_value_scaled, Hall, list_elem_of_In, Hx.
Qed.

(** X6. When at least one catalog image passes the filters, the
    clipped mean raster is computed and its thermal band holds, at a pixel
    the area of interest covers, the mean of the Fahrenheit conversions of
    the counts of the passing images that are valid and cloud-free there (no
    value if there is none), and no value at a pixel the area of interest
    does not cover. *)
Theorem clip_mean_ST_pixel catalog :
  Forall has_schema catalog →
  List.filter passes_filters catalog ≠ [] →
  ∃ r, clip_mean_ST catalog = Value r ∧
    ∀ p, pixel_value r "ST_B10" p =
         if covers aoi p then
           match omap (λ img, clear_fahrenheit img p)
                      (List.filter passes_filters catalog) with
           | [] => None
           | vs => Some (n_div (foldl n_add (ofZ 0) vs)
                               (ofZ (Z.of_nat (length vs))))
           end
         else None.
Proof.
  intros Hall Hne.
  unfold clip_mean_ST, one_band, mean_LandsatST.
  rewrite (landsatST_value _ Hall), !bind_of_Value.
  pose proof (valid_values_landsatST catalog) as Hvals.
  destruct (List.filter passes_filters catalog) as [|x xs] eqn:Hf;
    [contradiction Hne; reflexivity|].
  assert (Hx : has_schema x).
  { rewrite Forall_forall in Hall. apply Hall, list_elem_of_In.
    apply (proj1 (filter_In passes_filters x catalog)).
    rewrite Hf. left. reflexivity. }
  destruct Hx as [[st Hst] [qa Hqa]].
  set (L := (λ img, scaled (masked (selected img))) <$> x :: xs) in *.
  assert (Hfb : find_band "ST_B10" (bands (mean L))
                = Some (NumBand (mean_of <$> gather (stack "ST_B10" L)))).
  { apply (find_band_mean (scaled (masked (selected x)))).
    destruct (scaled_masked_selected_value _ _ _ Hst Hqa) as [_ ->].
    eexists. reflexivity. }
  rewrite (select_one _ _ _ Hfb), bind_of_Value.
  eexists. split; [reflexivity|]. intros p.
  unfold pixel_value. cbn [clip bands fmap list_fmap fst snd band_clip].
  rewrite find_band_head. cbn [mbind option_bind to_num].
  change STUDYBOUNDS with aoi. rewrite lookup_clip.
  destruct (covers aoi p); [|reflexivity].
  rewrite lookup_fmap, lookup_gather, <- valid_values_stack.
  rewrite (Hvals p Hall).
  destruct (omap _ (x :: xs)); reflexivity.
Qed.

(** The cloud mask after any filter that reads the metadata only. *)
Lemma mask_after_filter catalog (P : @Image T → bool) :
  Forall has_schema catalog →
  (∀ a b : @Image T, meta a = meta b → P a = P b) →
  (c ← map_images (select ["ST_B10"; "QA_PIXEL"]) catalog;
   map_images cloudMask (List.filter P c))
  = Value ((λ img, masked (selected img)) <$> List.filter P catalog).
Proof.
  intros Hall HP. rewrite Forall_forall in Hall. unfold map_images.
  rewrite (mapM_all_values _ selected); cycle 1.
  { intros x Hx. apply select_schema, Hall, list_elem_of_In, Hx. }
  rewrite bind_of_Value, filter_fmap_swap.
  rewrite (mapM_all_values _ masked); cycle 1.
  { intros y Hy. apply in_map_iff in Hy as (x & <- & Hx).
    apply filter_In in Hx as [Hx _].
    destruct (select_schema x) as (_ & _ & qa & Hqa);
      [apply Hall, list_elem_of_In, Hx|].
    apply (cloudMask_schema _ _ Hqa). }
  rewrite <- list_fmap_compose. f_equal. f_equal.
  apply filter_pointwise. intros x Hx. apply HP.
  destruct (select_schema x) as (_ & Hm & _);
    [apply Hall, list_elem_of_In, Hx|exact Hm].
Qed.

(** X8. The cloud-cover filter can be applied before the cloud
    mask instead of after it, and the four filters can be applied in the
    reverse order: the filtered collection is the same. *)
Theorem filters_can_be_reordered catalog :
  Forall has_schema catalog →
  filtered_L8 catalog =
  (c ← map_images (select ["ST_B10"; "QA_PIXEL"]) catalog;
   map_images cloudMask
     (filter_by (lt "CLOUD_COVER" (SInt 20))
        (filter_by YEAR_RANGE
           (filter_by DATE_RANGE (filterBounds STUDYBOUNDS c))))) ∧
  filtered_L8 catalog =
  (c ← map_images (select ["ST_B10"; "QA_PIXEL"]) catalog;
   map_images cloudMask
     (filterBounds STUDYBOUNDS
        (filter_by DATE_RANGE
           (filter_by YEAR_RANGE
              (filter_by (lt "CLOUD_COVER" (SInt 20)) c))))).
Proof.
  intros Hall. rewrite (filtered_L8_value _ Hall).
  unfold filter_by, filterBounds. split.
  - symmetry. etrans.
    { eapply (bind_ext_filter).
      intros c. rewrite !filter_twice. reflexivity. }
    rewrite (mask_after_filter _ _ Hall); cycle 1.
    { intros a b Hab.
      rewrite (in_bounds_meta _ _ _ Hab), !(passes_meta _ _ _ Hab).
      reflexivity. }
    f_equal. f_equal. apply filter_pointwise. intros x _.
    unfold passes_filters.
    destruct (in_bounds STUDYBOUNDS x), (passes DATE_RANGE x),
      (passes YEAR_RANGE x), (passes (lt "CLOUD_COVER" (SInt 20)) x);
      reflexivity.
  - symmetry. etrans.
    { eapply (bind_ext_filter).
      intros c. rewrite !filter_twice. reflexivity. }
    rewrite (mask_after_filter _ _ Hall); cycle 1.
    { intros a b Hab.
      rewrite (in_bounds_meta _ _ _ Hab), !(passes_meta _ _ _ Hab).
      reflexivity. }
    f_equal. f_equal. apply filter_pointwise. intros x _.
    unfold passes_filters.
    destruct (in_bounds STUDYBOUNDS x), (passes DATE_RANGE x),
      (passes YEAR_RANGE x), (passes (lt "CLOUD_COVER" (SInt 20)) x);
      reflexivity.
Qed.

End Pipeline.

(** ** More on the temporal mean *)

Section MeanValidity.
Context {T : Type} `{!Arith T}.
Implicit Types (p : pixel) (c : list (@Image T)).

Lemma pixel_value_mean_all c n p :
  Forall (λ img, is_Some (find_band n (bands img))) c →
  pixel_value (mean c) n p =
  match valid_values n p c with
  | [] => None
  | vs => Some (mean_of vs)
  end.
Proof.
  intros Hall. destruct c as [|first rest]; [reflexivity|].
  apply Forall_cons in Hall as [Hfirst _].
  apply (pixel_value_mean _ _ _ _ Hfirst).
Qed.

(** In a collection whose images all have band [n], a pixel of the mean has
    a value exactly when at least one image has a value there. *)
Lemma mean_valid_iff c n p :
  Forall (λ img, is_Some (find_band n (bands img))) c →
  is_Some (pixel_value (mean c) n p) ↔
  ∃ img, In img c ∧ is_Some (pixel_value img n p).
Proof.
  intros Hall. rewrite (pixel_value_mean_all _ _ _ Hall).
  assert (Hmem : ∀ v, v ∈ valid_values n p c ↔
                      ∃ img, img ∈ c ∧ pixel_value img n p = Some v)
    by (intros v; apply list_elem_of_omap).
  split.
  - destruct (valid_values n p c) as [|v vs]; [intros [? [=]]|]. intros _.
    destruct (proj1 (Hmem v)) as (img & Hin & Hpv); [left|].
    exists img. split; [apply list_elem_of_In, Hin|].
    rewrite Hpv. eexists. reflexivity.
  - intros (img & Hin & [v Hv]).
    assert (Hv' : v ∈ valid_values n p c).
    { apply Hmem. exists img. split; [apply list_elem_of_In, Hin|exact Hv]. }
    destruct (valid_values n p c); [inversion Hv'|]. eexists. reflexivity.
Qed.

End MeanValidity.

(** ** The mean in exact arithmetic *)

Local Open Scope Q_scope.

Lemma sum_from (a : Q) (l : list Q) :
  foldl Qplus a l == a + foldl Qplus 0 l.
Proof.
  revert a. induction l as [|x l IH]; intros a; cbn [foldl].
  - ring.
  - rewrite (IH (a + x)), (IH (0 + x)). ring.
Qed.

Lemma sum_of_cons (x : Q) (l : list Q) :
  sum_of (x :: l) == x + sum_of l.
Proof.
  unfold sum_of. cbn [foldl ofZ ofQ n_add Q_Arith]. rewrite sum_from.
  change (inject_Z 0) with 0. ring.
Qed.

Lemma sum_of_Permutation (l l' : list Q) :
  l ≡ₚ l' → sum_of l == sum_of l'.
Proof.
  induction 1 as [|x l l' _ IH|x y l|l l' l'' _ IH1 _ IH2].
  - reflexivity.
  - rewrite !sum_of_cons, IH. reflexivity.
  - rewrite !sum_of_cons. ring.
  - rewrite IH1. exact IH2.
Qed.

Lemma count_succ (k : nat) :
  inject_Z (Z.of_nat (S k)) == inject_Z (Z.of_nat k) + 1.
Proof.
  rewrite Nat2Z.inj_succ, <- Z.add_1_r, inject_Z_plus. reflexivity.
Qed.

Lemma sum_of_between (lo hi : Q) (l : list Q) :
  (∀ v, In v l → lo <= v <= hi) →
  inject_Z (Z.of_nat (length l)) * lo <= sum_of l
  ∧ sum_of l <= inject_Z (Z.of_nat (length l)) * hi.
Proof.
  induction l as [|x l IH]; intros Hb.
  - cbn. split; apply Qle_lteq; right; ring.
  - destruct IH as [IHl IHh]; [intros v Hv; apply Hb; right; exact Hv|].
    destruct (Hb x (or_introl eq_refl)) as [Hl Hh].
    rewrite sum_of_cons. change (length (x :: l)) with (S (length l)).
    rewrite count_succ. split.
    + assert (E : (inject_Z (Z.of_nat (length l)) + 1) * lo
                  == lo + inject_Z (Z.of_nat (length l)) * lo) by ring.
      rewrite E. apply Qplus_le_compat; assumption.
    + assert (E : (inject_Z (Z.of_nat (length l)) + 1) * hi
                  == hi + inject_Z (Z.of_nat (length l)) * hi) by ring.
      rewrite E. apply Qplus_le_compat; assumption.
Qed.

Lemma count_positive {A} (x : A) (l : list A) :
  0 < inject_Z (Z.of_nat (length (x :: l))).
Proof.
  change 0 with (inject_Z 0). rewrite <- Zlt_Qlt. cbn [length]. lia.
Qed.

(** In exact arithmetic the mean of two collections that are permutations
    of each other, with band [n] in every image, is the same value (or none
    for both) at every pixel. *)
Lemma mean_order_independent (c c' : list (@Image Q)) n (p : pixel) :
  c ≡ₚ c' →
  Forall (λ img, is_Some (find_band n (bands img))) c →
  same_number (pixel_value (mean c) n p) (pixel_value (mean c') n p).
Proof.
  intros Hperm Hall.
  assert (Hall' : Forall (λ img, is_Some (find_band n (bands img))) c')
    by (rewrite <- Hperm; exact Hall).
  rewrite (pixel_value_mean_all _ _ _ Hall), (pixel_value_mean_all _ _ _ Hall').
  assert (Hvs : valid_values n p c ≡ₚ valid_values n p c')
    by (unfold valid_values; rewrite Hperm; reflexivity).
  pose proof (Permutation_length Hvs) as Hlen.
  destruct (valid_values n p c) as [|v vs],
           (valid_values n p c') as [|v' vs']; try discriminate Hlen.
  - exact I.
  - unfold same_number, mean_of. cbn [n_div Q_Arith ofZ ofQ].
    rewrite Hlen, (sum_of_Permutation _ _ Hvs). reflexivity.
Qed.

(** In exact arithmetic the mean at a pixel lies between any bounds that
    hold for all the valid values at that pixel. *)
Lemma mean_between (c : list (@Image Q)) n (p : pixel) (lo hi m : Q) :
  Forall (λ img, is_Some (find_band n (bands img))) c →
  (∀ v, In v (valid_values n p c) → lo <= v <= hi) →
  pixel_value (mean c) n p = Some m →
  lo <= m <= hi.
Proof.
  intros Hall Hb. rewrite (pixel_value_mean_all _ _ _ Hall).
  destruct (valid_values n p c) as [|v vs]; [discriminate|].
  intros [= <-]. destruct (sum_of_between lo hi (v :: vs) Hb) as [Hl Hh].
  unfold mean_of. cbn [n_div Q_Arith ofZ ofQ]. split.
  - apply Qle_shift_div_l; [apply (count_positive v vs)|].
    rewrite Qmult_comm. exact Hl.
  - apply Qle_shift_div_r; [apply (count_positive v vs)|].
    rewrite Qmult_comm. exact Hh.
Qed.

(** X12. In exact arithmetic the conversion of an integer thermal band
    is affine in the count: 0.006152436 degrees Fahrenheit per count, offset
    -191.47; for a 16-bit count the result lies between -191.47 and
    211.74. *)
Theorem conversion_is_affine (image : @Image Q) (g : gmap pixel Z)
  (p : pixel) (raw : Z) :
  find_band "ST_B10" (bands image) = Some (IntBand g) →
  g !! p = Some raw →
  ∃ out v, applyScaleFactors image = Value out ∧
    pixel_value out "ST_B10" p = Some v ∧
    v == 0.006152436 * inject_Z raw - 191.47 ∧
    ((0 ≤ raw ≤ 65535)%Z → -191.47 <= v <= 211.74).
Proof.
  intros Hb Hraw. do 2 eexists.
  split; [apply (applyScaleFactors_value _ _ Hb)|].
  unfold pixel_value. cbn [bands]. rewrite find_band_put_eq.
  cbn [mbind option_bind to_num]. rewrite !lookup_fmap, Hraw.
  split; [reflexivity|].
  assert (Haff : spec_fahrenheit (ofZ raw)
                 == 0.006152436 * inject_Z raw - 191.47).
  { unfold spec_fahrenheit, spec_celsius, spec_kelvin.
    cbn [n_add n_sub n_mul Q_Arith ofZ ofQ]. field. }
  split; [exact Haff|].
  intros [H0 H1]. rewrite Haff.
  assert (Hq0 : 0 <= inject_Z raw)
    by (change 0 with (inject_Z 0); rewrite <- Zle_Qle; exact H0).
  assert (Hq1 : inject_Z raw <= 65535)
    by (change 65535 with (inject_Z 65535); rewrite <- Zle_Qle; exact H1).
  split.
  - apply Qle_trans with (0.006152436 * 0 - 191.47).
    + apply Qle_bool_iff. vm_compute. reflexivity.
    + apply Qplus_le_compat; [|apply Qle_refl].
      apply Qmult_le_l; [reflexivity|exact Hq0].
  - apply Qle_trans with (0.006152436 * 65535 - 191.47).
    + apply Qplus_le_compat; [|apply Qle_refl].
      apply Qmult_le_l; [reflexivity|exact Hq1].
    + apply Qle_bool_iff. vm_compute. reflexivity.
Qed.

Local Close Scope Q_scope.

(** ** The temporal mean of the script *)

Lemma filter_Permutation_list {A} (f : A → bool) (l l' : list A) :
  l ≡ₚ l' → List.filter f l ≡ₚ List.filter f l'.
Proof.
  induction 1 as [|x l l' _ IH|x y l|l l' l'' _ IH1 _ IH2].
  - reflexivity.
  - cbn. destruct (f x); [apply perm_skip|]; exact IH.
  - cbn. destruct (f x), (f y); try reflexivity. apply perm_swap.
  - etrans; [exact IH1|exact IH2].
Qed.

Section ScriptMean.
Context {T : Type} `{!Arith T} `{!Geo}.
Implicit Types (img : @Image T) (catalog : list (@Image T)) (p : pixel).

Lemma find_band_None n (bs : list (string * @Band T)) :
  find_band n bs = None ↔ ¬ In n bs.*1.
Proof.
  induction bs as [|[k b] bs IH]; cbn.
  - split; [intros _ []|reflexivity].
  - destruct (String.eqb_spec n k) as [->|Hne].
    + split; [discriminate|]. intros Hn. contradiction Hn. left. reflexivity.
    + rewrite IH. split.
      * intros Hn [Hk|Hin]; [congruence|contradiction].
      * intros Hn Hin. apply Hn. right. exact Hin.
Qed.

(** The mean of a collection whose images all have the same band names, at
    any band name and pixel. *)
Lemma pixel_value_mean_uniform (c : list (@Image T)) (ns : list string) n p :
  Forall (λ img, band_names img = ns) c →
  pixel_value (mean c) n p =
  match valid_values n p c with
  | [] => None
  | vs => Some (mean_of vs)
  end.
Proof.
  intros Hns. destruct c as [|first rest]; [reflexivity|].
  destruct (find_band n (bands first)) as [b|] eqn:Hb.
  - apply pixel_value_mean. exists b. exact Hb.
  - assert (Hn : ¬ In n ns).
    { apply Forall_cons in Hns as [<- _]. apply find_band_None, Hb. }
    assert (Hvals : valid_values n p (first :: rest) = []).
    { unfold valid_values.
      rewrite (omap_pointwise _ (λ _, None)).
      - generalize (first :: rest). intros l.
        induction l as [|x l IH]; [reflexivity|exact IH].
      - intros x Hx. unfold pixel_value.
        rewrite Forall_forall in Hns.
        rewrite (proj2 (find_band_None n (bands x))); [reflexivity|].
        unfold band_names in Hns. rewrite (Hns x); [exact Hn|].
        apply list_elem_of_In, Hx. }
    rewrite Hvals. unfold pixel_value, mean. etrans.
    { apply (f_equal (λ o, o ≫= (λ b : @Band T, to_num b !! p))).
      apply (find_band_fmap
               (λ k _, NumBand (mean_of <$> gather (stack k (first :: rest))))). }
    rewrite Hb. reflexivity.
Qed.

Lemma landsatST_band_names catalog :
  Forall has_schema catalog →
  Forall (λ img, band_names img = ["ST_B10"; "QA_PIXEL"])
         ((λ img, scaled (masked (selected img)))
            <$> List.filter passes_filters catalog).
Proof.
  intros Hall. rewrite Forall_forall in Hall.
  apply Forall_forall. intros y Hy.
  apply list_elem_of_In, in_map_iff in Hy as (x & <- & Hx).
  apply filter_In in Hx as [Hx _].
  destruct (Hall x) as [[st Hst] [qa Hqa]]; [apply list_elem_of_In, Hx|].
  destruct (scaled_masked_selected_value _ _ _ Hst Hqa) as [_ ->].
  reflexivity.
Qed.

Lemma landsatST_has_thermal catalog :
  Forall has_schema catalog →
  Forall (λ img, is_Some (find_band "ST_B10" (bands img)))
         ((λ img, scaled (masked (selected img)))
            <$> List.filter passes_filters catalog).
Proof.
  intros Hall. rewrite Forall_forall in Hall.
  apply Forall_forall. intros y Hy.
  apply list_elem_of_In, in_map_iff in Hy as (x & <- & Hx).
  apply filter_In in Hx as [Hx _].
  destruct (Hall x) as [[st Hst] [qa Hqa]]; [apply list_elem_of_In, Hx|].
  destruct (scaled_masked_selected_value _ _ _ Hst Hqa) as [_ ->].
  eexists. reflexivity.
Qed.

Lemma mean_LandsatST_value catalog :
  Forall has_schema catalog →
  mean_LandsatST catalog =
  Value (mean ((λ img, scaled (masked (selected img)))
                 <$> List.filter passes_filters catalog)).
Proof.
  intros Hall. unfold mean_LandsatST.
  rewrite (landsatST_value _ Hall). reflexivity.
Qed.

(** C3. On a catalog of the expected schema the script computes the
    converted collection [landsatST] and its mean [mean_LandsatST]; at every
    band name and pixel, where the images of the converted collection have
    the valid values v1..vk (the other images being masked there), the mean
    image holds (v1 + ... + vk) / k when k > 0 and has no value when
    k = 0. *)
Theorem mean_LandsatST_of_valid_values catalog :
  Forall has_schema catalog →
  ∃ c m, landsatST catalog = Value c ∧ mean_LandsatST catalog = Value m ∧
    ∀ n p,
      (valid_values n p c = [] → pixel_value m n p = None) ∧
      (valid_values n p c ≠ [] →
       pixel_value m n p =
       Some (n_div (foldl n_add (ofZ 0) (valid_values n p c))
                   (ofZ (Z.of_nat (length (valid_values n p c)))))).
Proof.
  intros Hall. do 2 eexists.
  split; [apply (landsatST_value _ Hall)|].
  split; [apply (mean_LandsatST_value _ Hall)|].
  intros n p.
  rewrite (pixel_value_mean_uniform _ _ n p (landsatST_band_names _ Hall)).
  destruct (valid_values n p _) as [|v vs].
  - split; [reflexivity|]. intros Hne. contradiction Hne. reflexivity.
  - split; [discriminate|]. intros _. reflexivity.
Qed.

(** X7. When no catalog image satisfies the four filter conditions (an empty
    catalog included), and only then, the filtered collection and the
    converted collection are the empty collection; they are computed, not
    failed. *)
Theorem empty_collections_iff catalog :
  Forall has_schema catalog →
  ∃ f c, filtered_L8 catalog = Value f ∧ landsatST catalog = Value c ∧
    (f = [] ↔ c = []) ∧
    (c = [] ↔
     ∀ img, In img catalog →
            ¬ (intersects_bounds img ∧ in_season img ∧ in_years img ∧
               cloud_cover_below 20 img)).
Proof.
  intros Hall. do 2 eexists.
  split; [apply (filtered_L8_value _ Hall)|].
  split; [apply (landsatST_value _ Hall)|].
  assert (Hnone : List.filter passes_filters catalog = [] ↔
            ∀ img, In img catalog →
                   ¬ (intersects_bounds img ∧ in_season img ∧ in_years img ∧
                      cloud_cover_below 20 img)).
  { split.
    - intros Hf img Hin Hc. apply passes_filters_spec in Hc.
      assert (Hx : In img (List.filter passes_filters catalog))
        by (apply filter_In; split; assumption).
      rewrite Hf in Hx. exact Hx.
    - intros Hno. destruct (List.filter passes_filters catalog) as [|x xs] eqn:Hf;
        [reflexivity|].
      assert (Hx : In x (List.filter passes_filters catalog))
        by (rewrite Hf; left; reflexivity).
      apply filter_In in Hx as [Hx Hp].
      contradiction (Hno x Hx). apply passes_filters_spec, Hp. }
  rewrite <- Hnone.
  destruct (List.filter passes_filters catalog); split; split;
    (reflexivity || discriminate).
Qed.

(** X9. On a catalog of the expected schema, a pixel of the thermal band of
    [mean_LandsatST] has a value exactly when some catalog image passes the
    four filters and has, at that pixel, a valid count with a valid quality
    value whose cloud and shadow bits are clear. *)
Theorem mean_LandsatST_valid_iff catalog :
  Forall has_schema catalog →
  ∃ m, mean_LandsatST catalog = Value m ∧
    ∀ p, is_Some (pixel_value m "ST_B10" p) ↔
         ∃ img, In img catalog ∧ passes_filters img = true ∧
                is_Some (clear_fahrenheit img p).
Proof.
  intros Hall. eexists. split; [apply (mean_LandsatST_value _ Hall)|].
  intros p. rewrite (mean_valid_iff _ _ p (landsatST_has_thermal _ Hall)).
  rewrite Forall_forall in Hall. split.
  - intros (y & Hy & Hsome). apply in_map_iff in Hy as (x & <- & Hx).
    apply filter_In in Hx as [Hx Hp]. exists x.
    rewrite pixel_value_scaled in Hsome by apply Hall, list_elem_of_In, Hx.
    repeat apply conj; assumption.
  - intros (x & Hx & Hp & Hsome). eexists. split.
    + apply in_map_iff. exists x. split; [reflexivity|].
      apply filter_In. split; assumption.
    + cbn. rewrite pixel_value_scaled by apply Hall, list_elem_of_In, Hx.
      exact Hsome.
Qed.

End ScriptMean.

Section ScriptMeanExact.
Context `{!Geo}.
Implicit Types (catalog : list (@Image Q)) (p : pixel).

(** X10. In exact (rational) arithmetic [mean_LandsatST] does not depend on
    the order of the catalog: for two catalogs of the expected schema that
    are permutations of each other, the thermal band of the mean has the same
    value, or none in both, at every pixel. *)
Theorem mean_LandsatST_order_independent catalog catalog' :
  catalog ≡ₚ catalog' →
  Forall has_schema catalog →
  ∃ m m', mean_LandsatST catalog = Value m ∧
          mean_LandsatST catalog' = Value m' ∧
          ∀ p, same_number (pixel_value m "ST_B10" p)
                           (pixel_value m' "ST_B10" p).
Proof.
  intros Hperm Hall.
  assert (Hall' : Forall has_schema catalog') by (rewrite <- Hperm; exact Hall).
  do 2 eexists.
  split; [apply (mean_LandsatST_value _ Hall)|].
  split; [apply (mean_LandsatST_value _ Hall')|].
  intros p. apply mean_order_independent.
  - apply fmap_Permutation, filter_Permutation_list, Hperm.
  - apply (landsatST_has_thermal _ Hall).
Qed.

(** X11. In exact (rational) arithmetic, if at a pixel the Fahrenheit values
    contributed by the catalog images that pass the filters all lie between
    two bounds, then so does the value of the thermal band of
    [mean_LandsatST] there, if it has one. *)
Theorem mean_LandsatST_between catalog p (lo hi : Q) :
  Forall has_schema catalog →
  (∀ img v, In img catalog → passes_filters img = true →
            clear_fahrenheit img p = Some v → (lo <= v <= hi)%Q) →
  ∃ m, mean_LandsatST catalog = Value m ∧
    ∀ v, pixel_value m "ST_B10" p = Some v → (lo <= v <= hi)%Q.
Proof.
  intros Hall Hb. eexists. split; [apply (mean_LandsatST_value _ Hall)|].
  intros v. apply mean_between; [apply (landsatST_has_thermal _ Hall)|].
  intros w Hw. rewrite (valid_values_landsatST _ p Hall) in Hw.
  apply list_elem_of_In, list_elem_of_omap in Hw as (x & Hx & Hv).
  apply list_elem_of_In, filter_In in Hx as [Hx Hp].
  apply (Hb x w Hx Hp Hv).
Qed.

End ScriptMeanExact.

(** ** The further properties on the fixture *)

Lemma conversion_is_affine_witness :
  ∃ out v, applyScaleFactors (Fixture.count_20000 (T:=Q)) = Value out ∧
    pixel_value out "ST_B10" Fixture.px_clear = Some v ∧
    (v == 0.006152436 * inject_Z 20000 - 191.47)%Q ∧
    (0 ≤ 20000 ≤ 65535 → -191.47 <= v <= 211.74)%Q.
Proof.
  apply (conversion_is_affine Fixture.count_20000
           (<[Fixture.px_clear := 20000]> ∅) Fixture.px_clear 20000).
  - reflexivity.
  - reflexivity.
Defined.

Section FurtherOnTheCatalog.
#[local] Existing Instance Fixture.box_Geo.

Lemma landsatST_shape_witness :
  ∃ out, landsatST Fixture.catalog = Value out ∧
    meta <$> out = meta <$> List.filter passes_filters Fixture.catalog ∧
    Forall (λ img, ∃ g qa, bands img = [("ST_B10", NumBand g);
                                        ("QA_PIXEL", IntBand qa)]) out.
Proof.
  apply (landsatST_shape Fixture.catalog).
  repeat (apply List.Forall_cons; [split; eexists; reflexivity|]). constructor.
Defined.

Lemma clip_mean_ST_pixel_witness :
  ∃ r, clip_mean_ST Fixture.catalog = Value r ∧
    ∀ p, pixel_value r "ST_B10" p =
         if covers aoi p then
           match omap (λ img, clear_fahrenheit img p)
                      (List.filter passes_filters Fixture.catalog) with
           | [] => None
           | vs => Some (n_div (foldl n_add (ofZ 0) vs)
                               (ofZ (Z.of_nat (length vs))))
           end
         else None.
Proof.
  apply (clip_mean_ST_pixel Fixture.catalog).
  - repeat (apply List.Forall_cons; [split; eexists; reflexivity|]).
    constructor.
  - vm_compute. discriminate.
Defined.

Lemma filters_can_be_reordered_witness :
  filtered_L8 Fixture.catalog =
  (c ← map_images (select ["ST_B10"; "QA_PIXEL"]) Fixture.catalog;
   map_images cloudMask
     (filter_by (lt "CLOUD_COVER" (SInt 20))
        (filter_by YEAR_RANGE
           (filter_by DATE_RANGE (filterBounds STUDYBOUNDS c))))) ∧
  filtered_L8 Fixture.catalog =
  (c ← map_images (select ["ST_B10"; "QA_PIXEL"]) Fixture.catalog;
   map_images cloudMask
     (filterBounds STUDYBOUNDS
        (filter_by DATE_RANGE
           (filter_by YEAR_RANGE
              (filter_by (lt "CLOUD_COVER" (SInt 20)) c))))).
Proof.
  apply (filters_can_be_reordered Fixture.catalog).
  repeat (apply List.Forall_cons; [split; eexists; reflexivity|]). constructor.
Defined.

Lemma mean_LandsatST_of_valid_values_witness :
  ∃ c m, landsatST Fixture.catalog = Value c ∧
    mean_LandsatST Fixture.catalog = Value m ∧
    ∀ n p,
      (valid_values n p c = [] → pixel_value m n p = None) ∧
      (valid_values n p c ≠ [] →
       pixel_value m n p =
       Some (n_div (foldl n_add (ofZ 0) (valid_values n p c))
                   (ofZ (Z.of_nat (length (valid_values n p c)))))).
Proof.
  apply (mean_LandsatST_of_valid_values Fixture.catalog).
  repeat (apply List.Forall_cons; [split; eexists; reflexivity|]). constructor.
Defined.

Lemma empty_collections_iff_witness :
  ∃ f c, filtered_L8 [Fixture.scene (T:=Q) (SInt 20) 2020 213] = Value f ∧
    landsatST [Fixture.scene (T:=Q) (SInt 20) 2020 213] = Value c ∧
    (f = [] ↔ c = []) ∧
    (c = [] ↔
     ∀ img, In img [Fixture.scene (T:=Q) (SInt 20) 2020 213] →
            ¬ (intersects_bounds img ∧ in_season img ∧ in_years img ∧
               cloud_cover_below 20 img)).
Proof.
  apply (empty_collections_iff [Fixture.scene (T:=Q) (SInt 20) 2020 213]).
  repeat (apply List.Forall_cons; [split; eexists; reflexivity|]). constructor.
Defined.

Lemma mean_LandsatST_valid_iff_witness :
  ∃ m, mean_LandsatST Fixture.catalog = Value m ∧
    ∀ p, is_Some (pixel_value m "ST_B10" p) ↔
         ∃ img, In img Fixture.catalog ∧ passes_filters img = true ∧
                is_Some (clear_fahrenheit img p).
Proof.
  apply (mean_LandsatST_valid_iff Fixture.catalog).
  repeat (apply List.Forall_cons; [split; eexists; reflexivity|]). constructor.
Defined.

Lemma mean_LandsatST_order_independent_witness :
  ∃ m m', mean_LandsatST Fixture.catalog = Value m ∧
          mean_LandsatST (rev Fixture.catalog) = Value m' ∧
          ∀ p, same_number (pixel_value m "ST_B10" p)
                           (pixel_value m' "ST_B10" p).
Proof.
  apply (mean_LandsatST_order_independent Fixture.catalog
                                          (rev Fixture.catalog)).
  - apply Permutation_rev.
  - repeat (apply List.Forall_cons; [split; eexists; reflexivity|]).
    constructor.
Defined.

Lemma mean_LandsatST_between_witness :
  ∃ m, mean_LandsatST Fixture.catalog = Value m ∧
    ∀ v, pixel_value m "ST_B10" Fixture.px_clear = Some v →
         (97 <= v <= 98)%Q.
Proof.
  apply (mean_LandsatST_between Fixture.catalog Fixture.px_clear 97%Q 98%Q).
  - repeat (apply List.Forall_cons; [split; eexists; reflexivity|]).
    constructor.
  - intros img v Hin Hp Hv.
    destruct Hin as [<-|[<-|[<-|[]]]]; vm_compute in Hp; try discriminate Hp;
      vm_compute in Hv; injection Hv as <-; split; vm_compute; discriminate.
Defined.

End FurtherOnTheCatalog.
